(** * A shallow embedding of [@fixmyhome/test-runner] and [@fixmyhome/test-utils]

    The development follows the two TypeScript packages:

    - [packages/test-runner/src/index.ts]: the registry ([tests],
      [currentDescribe], [registeredApp]), [describe], [it], [expect],
      [runTests], [waitFor], [registerApp], [render], [cleanup] and
      [runTestsInVM];
    - [packages/test-utils/src/index.ts]: [listFilesRecursive],
      [bundleCodeWithTests], [loadCodeFiles], [runTestsWithCode] and
      [validateProblemTests].

    JavaScript values, exceptions and the scripts handed to the runner are
    given as data; the runner itself is a set of functions passing the module
    state explicitly. *)

From Stdlib Require Import String Ascii List ZArith Bool Arith Lia Permutation.
From Stdlib Require Import SpecFloat DecimalString.
Import ListNotations.
Set Warnings "-register-all".
Local Open Scope list_scope.
Local Open Scope string_scope.

(* ================================================================== *)
(** * JavaScript values                                                 *)
(* ================================================================== *)

(** The values a test can hand to [expect] or [throw].  Numbers are IEEE-754
    doubles in the kernel-independent presentation [spec_float]; an object is
    known by its address only.  (BigInt and Symbol values are not part of the
    model.) *)
Inductive value : Type :=
| VUndefined
| VNull
| VBoolean (b : bool)
| VNumber (x : spec_float)
| VString (s : string)
| VObject (addr : nat).

Definition NaN : value := VNumber S754_nan.
Definition num (z : Z) : value := VNumber (binary_normalize 53 1024 z 0 false).

(** The tag [typeof]-style classification used to speak about coercion. *)
Inductive kind : Type := KUndefined | KNull | KBoolean | KNumber | KString | KObject.

Definition kind_of (v : value) : kind :=
  match v with
  | VUndefined => KUndefined
  | VNull => KNull
  | VBoolean _ => KBoolean
  | VNumber _ => KNumber
  | VString _ => KString
  | VObject _ => KObject
  end.

(** [a === e] (ECMAScript IsStrictlyEqual): values of different types are
    never equal, numbers compare as IEEE doubles, objects by identity. *)
Definition strict_eq (a e : value) : bool :=
  match a, e with
  | VUndefined, VUndefined => true
  | VNull, VNull => true
  | VBoolean x, VBoolean y => Bool.eqb x y
  | VNumber x, VNumber y => SFeqb x y
  | VString x, VString y => String.eqb x y
  | VObject p, VObject q => Nat.eqb p q
  | _, _ => false
  end.

(** ToBoolean. *)
Definition truthy (v : value) : bool :=
  match v with
  | VUndefined | VNull => false
  | VBoolean b => b
  | VNumber (S754_zero _) | VNumber S754_nan => false
  | VNumber _ => true
  | VString s => negb (String.eqb s "")
  | VObject _ => true
  end.

(** What a [throw] (or a rejected promise) carries, as far as a [catch]
    block that reads [e.message] can tell.  [ErrorOf m] is an object whose
    [message] property is the string [m]: every [Error] instance, and any
    other object given such a property.  [Thrown v] is a value that has no
    [message] property: [undefined] and [null], on which the read itself
    fails, a primitive, or an object without one.  (Objects whose [message]
    is not a string are not represented.) *)
Inductive exn : Type :=
| ErrorOf (message : string)
| Thrown (v : value).

Definition exn_truthy (e : exn) : bool :=
  match e with
  | ErrorOf _ => true
  | Thrown v => truthy v
  end.

(** How a call of a [void] function ends. *)
Inductive completion : Type :=
| Normal
| Throws (e : exn).

(** Reading [e.message] in a [catch (e: any)] block.  On [null] and
    [undefined] the property access itself raises a TypeError; on every other
    value without a [message] property it yields [undefined]. *)
Definition TypeError_message (v : value) : string :=
  match v with
  | VNull => "Cannot read properties of null (reading 'message')"
  | _ => "Cannot read properties of undefined (reading 'message')"
  end.

Definition message_of (e : exn) : exn + option string :=
  match e with
  | ErrorOf m => inr (Some m)
  | Thrown VUndefined => inl (ErrorOf (TypeError_message VUndefined))
  | Thrown VNull => inl (ErrorOf (TypeError_message VNull))
  | Thrown _ => inr None
  end.

(** A value spliced into a template literal; [undefined] prints as such. *)
Definition template (o : option string) : string :=
  match o with
  | Some s => s
  | None => "undefined"
  end.

Definition Z_to_string (z : Z) : string :=
  NilEmpty.string_of_int (Z.to_int z).

(* ================================================================== *)
(** * The assertion engine: [expect]                                    *)
(* ================================================================== *)

(** The comparator object returned by [expect(actual)].  Only the two
    identity comparators are embedded. *)
Record Comparator : Type := {
  toBe : value -> completion;
  not_toBe : value -> completion
}.

Section AssertionEngine.

(** [JSON.stringify] is a host built-in.  It returns a string, or
    [undefined] ([None]: for [undefined] and for functions), or it raises: a
    TypeError on a circular structure or a BigInt, or whatever a [toJSON]
    method raises. *)
Variable JSON_stringify : value -> exn + option string.

(** The two template literals are evaluated left to right, inside the
    [throw new Error(...)]: a serialisation that raises is what the
    comparator raises. *)
Definition expect (actual : value) : Comparator := {|
  toBe := fun expected =>
    if negb (strict_eq actual expected)
    then
      match JSON_stringify expected with
      | inl raised => Throws raised
      | inr e =>
          match JSON_stringify actual with
          | inl raised => Throws raised
          | inr a => Throws (ErrorOf ("Expected " ++ template e ++ ", got " ++ template a))
          end
      end
    else Normal;
  not_toBe := fun expected =>
    if strict_eq actual expected
    then
      match JSON_stringify expected with
      | inl raised => Throws raised
      | inr e => Throws (ErrorOf ("Expected not " ++ template e))
      end
    else Normal
|}.

End AssertionEngine.

(* ================================================================== *)
(** * Scripts: what test files and test bodies do to the runner         *)
(* ================================================================== *)

(** A React component, known by identity. *)
Definition component : Type := nat.

(** The statements of a test file, as far as the runner can observe them.
    [Call r] is a call whose only effect is how it completes: an assertion
    [expect(a).toBe(b)], a [throw]; as the end of a test body also a returned
    promise of the host's [Promise] class ([new Promise], [waitFor(...)],
    [act(...)]), which both runners await.  [Cleanup dom] is a call of
    [cleanup()] made where the global [document] is defined ([dom = true], a
    page) or is not (plain Node.js).  [Async body] is an [async] function of
    the text with the statements [body]: as a statement, a call of it whose
    promise is dropped; as the body of a case, the function itself.  What its
    statements raise rejects its promise, and the calls of [it], [describe],
    [registerApp] and [cleanup] among them are those it makes before it first
    suspends. *)
Inductive stmt : Type :=
| Skip
| Seq (s1 s2 : stmt)
| Call (r : completion)
| TryCatch (body handler : stmt)
| It (name : string) (fn : stmt)
| Describe (name : string) (fn : stmt)
| RegisterApp (App : component)
| Cleanup (dom : bool)
| Async (body : stmt).

Definition Throw (e : exn) : stmt := Call (Throws e).

Declare Scope script_scope.
Delimit Scope script_scope with script.
Notation "s1 ;; s2" := (Seq s1 s2) (at level 61, right associativity) : script_scope.

(* ================================================================== *)
(** * packages/test-runner/src/index.ts                                 *)
(* ================================================================== *)

(** [interface Test { name; fn }] *)
Record Test : Type := { name : string; fn : stmt }.

(** A registry: the array of registered cases and the active group name.
    The module owns one ([tests], [currentDescribe]); every sandbox owns one
    ([__testResults.tests], [__testResults.describe]; its third field,
    [passed], is never read or written after creation). *)
Record Registry : Type := {
  tests : list Test;
  currentDescribe : string
}.

(** The module variable [registeredApp] and the number of [#test-root]
    containers currently attached to [document.body]. *)
Record AppState : Type := {
  registeredApp : option component;
  test_roots : nat
}.

(** What the global names of a running script are bound to: the registry
    that [describe] and [it] write to, and the host variables behind
    [registerApp] and [cleanup]. *)
Record World : Type := {
  registry : Registry;
  app : AppState
}.

Definition with_registry (r : Registry) (w : World) : World :=
  {| registry := r; app := app w |}.

Definition with_app (a : AppState) (w : World) : World :=
  {| registry := registry w; app := a |}.

Definition set_currentDescribe (d : string) (w : World) : World :=
  with_registry {| tests := tests (registry w); currentDescribe := d |} w.

(** [describe(name, fn)]: set, call, reset; a throwing [fn] leaves the
    function before the reset. *)
Definition describe (name : string) (fn : World -> completion * World)
    (w : World) : completion * World :=
  let w1 := set_currentDescribe name w in
  match fn w1 with
  | (Normal, w2) => (Normal, set_currentDescribe "" w2)
  | (Throws e, w2) => (Throws e, w2)
  end.

(** The name under which [it] files a case: a non-empty group name is
    prefixed with [" > "]. *)
Definition case_name (group name : string) : string :=
  if String.eqb group "" then name else group ++ " > " ++ name.

(** [it(name, fn)]: [tests.push({ name: ..., fn })]. *)
Definition it (name0 : string) (fn0 : stmt) (w : World) : World :=
  let r := registry w in
  with_registry
    {| tests := (tests r ++ [{| name := case_name (currentDescribe r) name0; fn := fn0 |}])%list;
       currentDescribe := currentDescribe r |} w.

(** [registerApp(App)] *)
Definition registerApp (App : component) (w : World) : World :=
  with_app {| registeredApp := Some App; test_roots := test_roots (app w) |} w.

(** [render()], in a page ([document], [React] and [ReactDOM] are there):
    fails when nothing is registered, otherwise attaches a new container and
    renders the registered component into it. *)
Definition render (w : World) : (exn + component) * World :=
  match registeredApp (app w) with
  | None => (inl (ErrorOf "No App registered. Call registerApp(App) first."), w)
  | Some App =>
      (inr App,
       with_app {| registeredApp := Some App; test_roots := S (test_roots (app w)) |} w)
  end.

(** [cleanup()].  Its first line reads [document]: where there is none the
    call ends there with a ReferenceError and nothing is reset.  In a page
    (with [ReactDOM] there) it removes the first container when there is one,
    then forgets the registered component. *)
Definition cleanup (dom : bool) (w : World) : completion * World :=
  if dom
  then (Normal,
        with_app {| registeredApp := None;
                    test_roots := Nat.pred (test_roots (app w)) |} w)
  else (Throws (ErrorOf "document is not defined"), w).

(** Running a script against the names bound in [w]. *)
Fixpoint exec (s : stmt) (w : World) : completion * World :=
  match s with
  | Skip => (Normal, w)
  | Seq s1 s2 =>
      match exec s1 w with
      | (Normal, w1) => exec s2 w1
      | (Throws e, w1) => (Throws e, w1)
      end
  | Call r => (r, w)
  | TryCatch body handler =>
      match exec body w with
      | (Normal, w1) => (Normal, w1)
      | (Throws _, w1) => exec handler w1
      end
  | It name0 fn0 => (Normal, it name0 fn0 w)
  | Describe name0 fn0 => describe name0 (exec fn0) w
  | RegisterApp App => (Normal, registerApp App w)
  | Cleanup dom => cleanup dom w
  | Async body => (Normal, snd (exec body w))
  end.

(** [test.fn()] as the two loops observe it.  [runTests] writes
    [await test.fn()] and so awaits whatever the body returns.
    [runTestsInVM] writes [const result = test.fn(); if (result instanceof
    Promise) await result]: the promise of an [async] function defined in the
    sandbox is not an instance of the host's [Promise], so it is dropped and
    the case counts as passed whatever the promise settles to. *)
Definition call (awaits_any : bool) (f : stmt) (w : World) : completion * World :=
  match f with
  | Async body => if awaits_any then exec body w else exec (Async body) w
  | _ => exec f w
  end.

(** One entry of [TestResult.results]. *)
Record CaseResult : Type := {
  case : string;
  case_passed : bool;
  error : option string
}.

(** [interface TestResult] *)
Record TestResult : Type := {
  passed : bool;
  results : list CaseResult
}.

(** How an [async] function of the runner ends: its promise is fulfilled or
    rejected.  [OutOfFuel] is the bounded loop giving up; the loops below are
    started with enough fuel and never reach it. *)
Inductive outcome (A : Type) : Type :=
| Returns (a : A) (w : World)
| Rejects (e : exn) (w : World)
| OutOfFuel.
Arguments Returns {A} a w.
Arguments Rejects {A} e w.
Arguments OutOfFuel {A}.

(** The loop of [runTests] ([awaits_any = true]) and of the drain phase of
    [runTestsInVM] ([awaits_any = false]):
    [for (const test of tests) { try { <call test.fn>; push pass }
    catch (e) { push fail with e.message } }].  The iterator reads the live
    array, so cases pushed by a running body are visited too. *)
Fixpoint drain (awaits_any : bool) (fuel : nat) (i : nat) (acc : list CaseResult)
    (w : World) : outcome (list CaseResult) :=
  match fuel with
  | O => OutOfFuel
  | S fuel' =>
      match nth_error (tests (registry w)) i with
      | None => Returns acc w
      | Some t =>
          match call awaits_any (fn t) w with
          | (Normal, w1) =>
              drain awaits_any fuel' (S i)
                (acc ++ [{| case := name t; case_passed := true; error := None |}])%list w1
          | (Throws e, w1) =>
              match message_of e with
              | inr msg =>
                  drain awaits_any fuel' (S i)
                    (acc ++ [{| case := name t; case_passed := false; error := msg |}])%list
                    w1
              | inl type_error => Rejects type_error w1
              end
          end
      end
  end.

(** An upper bound on the cases a script can ever cause to be drained. *)
Fixpoint cost (s : stmt) : nat :=
  match s with
  | Seq s1 s2 => cost s1 + cost s2
  | TryCatch body handler => cost body + cost handler
  | It _ fn0 => S (cost fn0)
  | Describe _ fn0 => cost fn0
  | Async body => cost body
  | _ => O
  end.

Definition budget (ts : list Test) : nat :=
  list_sum (map (fun t => S (cost (fn t))) ts).

Definition report (rs : list CaseResult) : TestResult :=
  {| passed := forallb case_passed rs; results := rs |}.

(** [tests.length = 0] *)
Definition clear_tests (w : World) : World :=
  with_registry {| tests := []; currentDescribe := currentDescribe (registry w) |} w.

(** [runTests()].  The loop is given [S (budget ...)] rounds, more than it
    can use ([drain_ends]). *)
Definition runTests (w : World) : outcome TestResult :=
  match drain true (S (budget (tests (registry w)))) 0 [] w with
  | Returns rs w1 => Returns (report rs) (clear_tests w1)
  | Rejects e w1 => Rejects e w1
  | OutOfFuel => OutOfFuel
  end.

(** The globals [runTestsInVM] looks for before doing anything. *)
Record Env : Type := {
  has_process : bool;
  has_require : bool
}.

(** The text handed to [vm.runInContext]: it fails to parse, or it is a
    script, or it is a script that after [s] keeps running past the time
    limit. *)
Inductive source : Type :=
| Unparsable (message : string)
| Script (s : stmt)
| Endless (s : stmt).

Definition vm_timeout : Z := 30000.

(** [vm.runInContext(bundledCode, context, { timeout: 30000 })]: a syntax
    error and an exceeded time limit are both raised as errors by the host. *)
Definition runInContext (src : source) (w : World) : completion * World :=
  match src with
  | Unparsable m => (Throws (ErrorOf m), w)
  | Script s => exec s w
  | Endless s =>
      match exec s w with
      | (Normal, w1) =>
          (Throws (ErrorOf ("Script execution timed out after "
                              ++ Z_to_string vm_timeout ++ "ms")), w1)
      | (Throws e, w1) => (Throws e, w1)
      end
  end.

(** [__testResults: { tests: [], describe: '', passed: true }] *)
Definition fresh_registry : Registry := {| tests := []; currentDescribe := "" |}.

(** [runTestsInVM(bundledCode)].  The sandbox gets a registry of its own;
    [registerApp] and [cleanup] are the module's own functions, so they act on
    the module's [registeredApp].  The module's registry is not reachable
    from the sandbox and is handed back untouched.  (Whether [require('react')]
    succeeds has no bearing on what follows: [render] is not among the names
    given to the sandbox.) *)
Definition runTestsInVM (env : Env) (bundledCode : source) (w : World)
    : outcome TestResult :=
  if negb (has_process env) || negb (has_require env)
  then Rejects (ErrorOf "runTestsInVM can only be used in Node.js environment") w
  else
    let sandbox := with_registry fresh_registry w in
    let back := fun s : World => with_app (app s) w in
    match runInContext bundledCode sandbox with
    | (Throws err, s1) =>
        match message_of err with
        | inr msg =>
            Returns
              {| passed := false;
                 results := [{| case := "Code execution"; case_passed := false;
                                error := Some ("Failed to execute code: " ++ template msg) |}] |}
              (back s1)
        | inl type_error => Rejects type_error (back s1)
        end
    | (Normal, s1) =>
        match drain false (S (budget (tests (registry s1)))) 0 [] s1 with
        | Returns rs s2 => Returns (report rs) (back s2)
        | Rejects e s2 => Rejects e (back s2)
        | OutOfFuel => OutOfFuel
        end
    end.

(* ------------------------------------------------------------------ *)
(** ** [waitFor]                                                        *)
(* ------------------------------------------------------------------ *)

(** How a call [callback()] ends: it throws, or it returns an instance of
    the host's [Promise] class, which settles, or it returns anything else: a
    plain value, or a promise of another realm (that of an [async] function
    defined in a sandbox), whatever such a promise settles to. *)
Inductive call_end : Type :=
| Threw (e : exn)
| ReturnedPromise (settled : completion)
| ReturnedOther.

(** [const result = callback(); if (result instanceof Promise) await result]
    inside the [try]: what the loop takes the attempt for. *)
Definition observed (r : call_end) : completion :=
  match r with
  | Threw e => Throws e
  | ReturnedPromise settled => settled
  | ReturnedOther => Normal
  end.

(** One invocation of the polled callback: how it ends, how many
    milliseconds it took (the wait for a returned [Promise] included) and,
    for the sleep that follows a failure, by how many milliseconds the timer
    fires after the delay asked for: a timer may fire late, never early. *)
Record Attempt : Type := {
  ends : call_end;
  took : Z;
  late : nat
}.

(** [options: { timeout?: number; interval?: number }], both in whole
    milliseconds. *)
Record Options : Type := {
  timeout : option Z;
  interval : option Z
}.

(** The wall clock read by [Date.now()], with the number of invocations of
    the callback made so far.  The callback is given by what its successive
    invocations do; the clock moves while the callback runs and while the
    loop sleeps, and not in between. *)
Record Clock : Type := {
  now : Z;
  calls : nat
}.

(** [await new Promise(resolve => setTimeout(resolve, interval))]: a
    negative delay counts as zero, and the timer fires [late0] milliseconds
    after the delay.  A host promises no more than that the timer does not
    fire early; Node.js raises a delay below 1 to 1 ms, so there a sleep
    lasts at least one millisecond. *)
Definition sleep (ms : Z) (late0 : nat) (c : Clock) : Clock :=
  {| now := now c + Z.max 0 ms + Z.of_nat late0; calls := calls c |}.

(** [new Error(`waitFor timeout after ${timeout}ms`)].  A whole number
    prints in decimal as long as its magnitude is below [10^21]; the
    statements that mention the text assume as much. *)
Definition timeout_error (timeout0 : Z) : exn :=
  ErrorOf ("waitFor timeout after " ++ Z_to_string timeout0 ++ "ms").

Definition prints_in_decimal (z : Z) : Prop := (Z.abs z < 10 ^ 21)%Z.

(** [lastError || new Error(...)] *)
Definition last_or_timeout (lastError : option exn) (timeout0 : Z) : exn :=
  match lastError with
  | Some e => if exn_truthy e then e else timeout_error timeout0
  | None => timeout_error timeout0
  end.

(** The [while (Date.now() - startTime < timeout)] loop; [None] when the
    fuel is used up before the loop is left. *)
Fixpoint waitFor_loop (fuel : nat) (callback : nat -> Attempt)
    (timeout0 interval0 startTime : Z) (lastError : option exn) (c : Clock)
    : option (completion * Clock) :=
  match fuel with
  | O => None
  | S fuel' =>
      if now c - startTime <? timeout0 then
        let a := callback (calls c) in
        let c1 := {| now := now c + took a; calls := S (calls c) |} in
        match observed (ends a) with
        | Normal => Some (Normal, c1)
        | Throws e =>
            waitFor_loop fuel' callback timeout0 interval0 startTime (Some e)
              (sleep interval0 (late a) c1)
        end
      else Some (Throws (last_or_timeout lastError timeout0), c)
  end%Z.

Definition timeout_of (o : Options) : Z :=
  match timeout o with Some t => t | None => 5000%Z end.

Definition interval_of (o : Options) : Z :=
  match interval o with Some i => i | None => 50%Z end.

(** [waitFor(callback, options = {})] *)
Definition waitFor (fuel : nat) (callback : nat -> Attempt) (options : Options)
    (c : Clock) : option (completion * Clock) :=
  let startTime := now c in
  waitFor_loop fuel callback (timeout_of options) (interval_of options)
    startTime None c.

Definition no_options : Options := {| timeout := None; interval := None |}.

(* ================================================================== *)
(** * packages/test-utils/src/index.ts                                  *)
(* ================================================================== *)

(** The file system as [fs] sees it: a tree of named files and directories.
    A path is its list of segments below the root directory. *)
Inductive node : Type :=
| File (entry : string) (content : string)
| Dir (entry : string) (entries : list node).

Definition path : Type := list string.

Definition entry_name (n : node) : string :=
  match n with
  | File entry _ => entry
  | Dir entry _ => entry
  end.

Fixpoint find_entry (entry : string) (entries : list node) : option node :=
  match entries with
  | [] => None
  | n :: rest => if String.eqb (entry_name n) entry then Some n else find_entry entry rest
  end.

Fixpoint lookup (p : path) (n : node) : option node :=
  match p with
  | [] => Some n
  | seg :: rest =>
      match n with
      | File _ _ => None
      | Dir _ entries =>
          match find_entry seg entries with
          | Some child => lookup rest child
          | None => None
          end
      end
  end.

(** [path.join] with one more segment, and with a relative path; the string
    form of a path. *)
Definition join (p : path) (seg : string) : path := (p ++ [seg])%list.

Definition join_path (p rel : path) : path := (p ++ rel)%list.

Definition path_string (p : path) : string := String.concat "/" p.

(** A value or the error raised by an [fs] call. *)
Definition fallible (A : Type) : Type := (exn + A)%type.

Definition existsSync (root : node) (p : path) : bool :=
  match lookup p root with
  | Some _ => true
  | None => false
  end.

Definition readFileSync (root : node) (p : path) : fallible string :=
  match lookup p root with
  | Some (File _ content) => inr content
  | Some (Dir _ _) =>
      inl (ErrorOf "EISDIR: illegal operation on a directory, read")
  | None =>
      inl (ErrorOf ("ENOENT: no such file or directory, open '" ++ path_string p ++ "'"))
  end.

(** The walk of [listFilesRecursive] over the entries of a directory: files
    are listed relative to [baseDir], sub-directories are entered where they
    occur. *)
Fixpoint walk (rel : path) (n : node) : list path :=
  match n with
  | File entry _ => [join rel entry]
  | Dir entry entries => flat_map (walk (join rel entry)) entries
  end.

(** [listFilesRecursive(dir)]: empty for a missing directory; [readdirSync]
    raises on a path that is a file. *)
Definition listFilesRecursive (root : node) (dir : path) : fallible (list path) :=
  match lookup dir root with
  | None => inr []
  | Some (File _ _) =>
      inl (ErrorOf ("ENOTDIR: not a directory, scandir '" ++ path_string dir ++ "'"))
  | Some (Dir _ entries) => inr (flat_map (walk []) entries)
  end.

(** [Record<string, string>]: the own properties of a plain object, in the
    order in which they were created. *)
Definition files : Type := list (string * string).

Fixpoint set_own (k v : string) (fs : files) : files :=
  match fs with
  | [] => [(k, v)]
  | (k', v') :: rest =>
      if String.eqb k' k then (k, v) :: rest else (k', v') :: set_own k v rest
  end.

(** [files[k] = v] with a string [v]: the key ["__proto__"] reaches the
    setter inherited from [Object.prototype], which ignores a string and
    creates no property; any other key is set as an own property. *)
Definition assign (k v : string) (fs : files) : files :=
  if String.eqb k "__proto__" then fs else set_own k v fs.

(** The keys that are array indices: canonical decimal numerals below
    [2^32 - 1]. *)
Definition digit_of (c : ascii) : option N :=
  let n := N_of_ascii c in
  if (48 <=? n)%N && (n <=? 57)%N then Some (n - 48)%N else None.

Fixpoint digits (s : string) (acc : N) : option N :=
  match s with
  | EmptyString => Some acc
  | String c rest =>
      match digit_of c with
      | Some d => digits rest (10 * acc + d)%N
      | None => None
      end
  end.

Definition array_index (k : string) : option N :=
  match k with
  | EmptyString => None
  | String c rest =>
      if Ascii.eqb c "0"%char && negb (String.eqb rest "") then None
      else
        match digits k 0 with
        | Some n => if (n <? 4294967295)%N then Some n else None
        | None => None
        end
  end.

Fixpoint insert_by_index (n : N) (kv : string * string)
    (l : list (N * (string * string))) : list (N * (string * string)) :=
  match l with
  | [] => [(n, kv)]
  | (m, kv') :: rest =>
      if (n <=? m)%N then (n, kv) :: l else (m, kv') :: insert_by_index n kv rest
  end.

Fixpoint indexed (fs : files) : list (N * (string * string)) :=
  match fs with
  | [] => []
  | kv :: rest =>
      match array_index (fst kv) with
      | Some n => insert_by_index n kv (indexed rest)
      | None => indexed rest
      end
  end.

Definition named (fs : files) : files :=
  filter (fun kv => match array_index (fst kv) with Some _ => false | None => true end) fs.

(** [Object.entries(files)]: the array-index keys in ascending numeric
    order, then the other keys in the order of their creation. *)
Definition Object_entries (fs : files) : files :=
  (map snd (indexed fs) ++ named fs)%list.

(** [bundleCodeWithTests(codeFiles, testCode)] *)
Definition bundleCodeWithTests (codeFiles : files) (testCode : string) : string :=
  let bundled :=
    (flat_map (fun kv : string * string => [("// File: " ++ fst kv)%string; snd kv; ""])
       (Object_entries codeFiles)
     ++ ["// Auto-register App"; "registerApp(App);"; ""]
     ++ ["// Test file"; testCode])%list in
  String.concat (String "010" EmptyString) bundled.

Inductive folder : Type := src | solution.

Definition folder_name (f : folder) : string :=
  match f with
  | src => "src"
  | solution => "solution"
  end.

(** [for (const filepath of filePaths) { files[filepath] = readFileSync(...) }] *)
Fixpoint read_all (root : node) (folderPath : path) (filePaths : list path)
    (acc : files) : fallible files :=
  match filePaths with
  | [] => inr acc
  | filepath :: rest =>
      match readFileSync root (join_path folderPath filepath) with
      | inl e => inl e
      | inr content =>
          read_all root folderPath rest (assign (path_string filepath) content acc)
      end
  end.

(** The result of [validateProblemTests]. *)
Record Validation : Type := {
  valid : bool;
  solutionResult : option TestResult;
  srcResult : option TestResult;
  errors : list string
}.

Section TestUtils.

(** The file system, the globals of the process, and what the virtual
    machine makes of a bundled text. *)
Variable root : node.
Variable env : Env.
Variable compile : string -> source.

(** [loadCodeFiles(problemPath, folder)] *)
Definition loadCodeFiles (problemPath : path) (f : folder) : fallible files :=
  let folderPath := join problemPath (folder_name f) in
  if negb (existsSync root folderPath) then inr []
  else
    match listFilesRecursive root folderPath with
    | inl e => inl e
    | inr filePaths => read_all root folderPath filePaths []
    end.

(** [runTestsWithCode(problemPath, folder)] *)
Definition runTestsWithCode (problemPath : path) (f : folder) (w : World)
    : outcome TestResult :=
  match loadCodeFiles problemPath f with
  | inl e => Rejects e w
  | inr codeFiles =>
      let testPath := join problemPath "test.ts" in
      if negb (existsSync root testPath) then
        Returns
          {| passed := false;
             results := [{| case := "Load test file"; case_passed := false;
                            error := Some "test.ts not found" |}] |} w
      else
        match readFileSync root testPath with
        | inl e => Rejects e w
        | inr testCode =>
            let bundledCode := bundleCodeWithTests codeFiles testCode in
            match runTestsInVM env (compile bundledCode) w with
            | Returns r w1 => Returns r w1
            | Rejects err w1 =>
                match message_of err with
                | inr msg =>
                    Returns
                      {| passed := false;
                         results := [{| case := "Run tests in VM"; case_passed := false;
                                        error := msg |}] |} w1
                | inl type_error => Rejects type_error w1
                end
            | OutOfFuel => OutOfFuel
            end
        end
  end.

(** The lines pushed for a failing solution run. *)
Definition failed_lines (r : TestResult) : list string :=
  flat_map
    (fun c : CaseResult =>
       if negb (case_passed c)
       then [("  - " ++ case c ++ ": " ++ template (error c))%string]
       else [])
    (results r).

(** [validateProblemTests(problemPath)] *)
Definition validateProblemTests (problemPath : path) (w : World)
    : outcome Validation :=
  let solutionPath := join problemPath "solution" in
  if negb (existsSync root solutionPath) then
    Returns
      {| valid := true;
         solutionResult := None;
         srcResult := None;
         errors := ["No solution/ folder - skipping test validation"] |} w
  else
    match runTestsWithCode problemPath solution w with
    | Rejects e w1 => Rejects e w1
    | OutOfFuel => OutOfFuel
    | Returns solutionResult0 w1 =>
        let errors1 :=
          if negb (passed solutionResult0)
          then ("solution/ code failed tests (should pass all tests)"
                  :: "Failed tests:" :: failed_lines solutionResult0)
          else [] in
        match runTestsWithCode problemPath src w1 with
        | Rejects e w2 => Rejects e w2
        | OutOfFuel => OutOfFuel
        | Returns srcResult0 w2 =>
            let errors2 :=
              if passed srcResult0
              then (errors1 ++
                      ["src/ code passed all tests (should have bugs that fail tests)"])%list
              else errors1 in
            Returns
              {| valid := Nat.eqb (length errors2) 0;
                 solutionResult := Some solutionResult0;
                 srcResult := Some srcResult0;
                 errors := errors2 |} w2
        end
    end.

End TestUtils.

(* ================================================================== *)
(** * Vocabulary of the statements                                      *)
(* ================================================================== *)

(** The functions below are not part of the packages; the theorems are
    stated with them. *)

(** How a script completes; it does not depend on the world it runs in
    ([exec_completes]).  A call of an [async] function completes normally:
    what its statements raise goes to its promise. *)
Fixpoint completes (s : stmt) : completion :=
  match s with
  | Seq s1 s2 =>
      match completes s1 with
      | Normal => completes s2
      | Throws e => Throws e
      end
  | Call r => r
  | TryCatch body handler =>
      match completes body with
      | Normal => Normal
      | Throws _ => completes handler
      end
  | Describe _ fn0 => completes fn0
  | Cleanup dom => if dom then Normal else Throws (ErrorOf "document is not defined")
  | _ => Normal
  end.

(** The script contains a call of [it], at any depth. *)
Fixpoint registers (s : stmt) : bool :=
  match s with
  | Seq s1 s2 => registers s1 || registers s2
  | TryCatch body handler => registers body || registers handler
  | It _ _ => true
  | Describe _ fn0 => registers fn0
  | Async body => registers body
  | _ => false
  end.

(** The script contains a call of [registerApp] or [cleanup], at any depth,
    test bodies included. *)
Fixpoint touches_app (s : stmt) : bool :=
  match s with
  | Seq s1 s2 => touches_app s1 || touches_app s2
  | TryCatch body handler => touches_app body || touches_app handler
  | It _ fn0 => touches_app fn0
  | Describe _ fn0 => touches_app fn0
  | RegisterApp _ | Cleanup _ => true
  | Async body => touches_app body
  | _ => false
  end.

(** What [await f()] gives for a test body [f]: the promise of an [async]
    body is awaited and settles as its statements complete. *)
Definition settles (f : stmt) : completion :=
  match f with
  | Async body => completes body
  | _ => completes f
  end.

(** What each loop takes a call of the body for ([call]). *)
Definition seen (awaits_any : bool) (f : stmt) : completion :=
  if awaits_any then settles f else completes f.

(** The raised value is [null] or [undefined]. *)
Definition nullish (c : completion) : bool :=
  match c with
  | Throws (Thrown VUndefined) | Throws (Thrown VNull) => true
  | _ => false
  end.

(** The test, awaited, fails by raising [null] or [undefined]. *)
Definition fails_nullish (s : stmt) : bool := nullish (settles s).

(** The entry filed for a case whose body was seen to end with [c]. *)
Definition entry_for (t : Test) (c : completion) : CaseResult :=
  match c with
  | Normal => {| case := name t; case_passed := true; error := None |}
  | Throws e =>
      {| case := name t; case_passed := false;
         error := match message_of e with inr msg => msg | inl _ => None end |}
  end.

(** The entry each loop is to file for a case. *)
Definition filed (awaits_any : bool) (t : Test) : CaseResult :=
  entry_for t (seen awaits_any (fn t)).

(** The entry [runTests] is to file for a case: its name, whether its body,
    awaited, completed normally, and otherwise the [message] of what it
    raised. *)
Definition awaited_verdict (t : Test) : CaseResult := entry_for t (settles (fn t)).

(** The entry the sandbox runner is to file for a case: its name, whether the
    call of its body completed normally, and otherwise the [message] of what
    it raised. *)
Definition verdict (t : Test) : CaseResult :=
  match completes (fn t) with
  | Normal => {| case := name t; case_passed := true; error := None |}
  | Throws e =>
      {| case := name t; case_passed := false;
         error := match message_of e with inr msg => msg | inl _ => None end |}
  end.

(** What the caller of an [async] function gets, and the world it leaves. *)
Definition answer {A : Type} (o : outcome A) : option (exn + A) :=
  match o with
  | Returns a _ => Some (inr a)
  | Rejects e _ => Some (inl e)
  | OutOfFuel => None
  end.

Definition world_after {A : Type} (o : outcome A) (w : World) : World :=
  match o with
  | Returns _ w' => w'
  | Rejects _ w' => w'
  | OutOfFuel => w
  end.

(** The statements of a text that parses. *)
Definition src_stmt (b : source) : option stmt :=
  match b with
  | Unparsable _ => None
  | Script s => Some s
  | Endless s => Some s
  end.

Definition src_touches_app (b : source) : bool :=
  match src_stmt b with
  | Some s => touches_app s
  | None => false
  end.

Definition src_registers (b : source) : bool :=
  match src_stmt b with
  | Some s => registers s
  | None => false
  end.

(** [process] and [require] are both defined. *)
Definition is_node (env : Env) : bool := has_process env && has_require env.

Ltac inv H := inversion H; subst; clear H.

(** The body of the case calls neither [registerApp] nor [cleanup]. *)
Definition quiet (t : Test) : Prop := touches_app (fn t) = false.

(** No body of the registered cases registers cases. *)
Definition static (ts : list Test) : bool :=
  forallb (fun t => negb (registers (fn t))) ts.

(** No body of the registered cases fails by raising [null] or [undefined]. *)
Definition no_nullish_failure (ts : list Test) : bool :=
  forallb (fun t => negb (fails_nullish (fn t))) ts.

(** The module as loaded: nothing registered, nothing rendered; a Node.js
    process; the module after the given cases have been registered outside
    any group. *)
Definition pristine : World :=
  {| registry := fresh_registry;
     app := {| registeredApp := None; test_roots := 0 |} |}.

Definition node_env : Env := {| has_process := true; has_require := true |}.

Definition registered (ts : list Test) : World :=
  with_registry {| tests := ts; currentDescribe := "" |} pristine.

(** The calls of [it] in a script, at any depth: name and body. *)
Fixpoint its (s : stmt) : list (string * stmt) :=
  match s with
  | Seq s1 s2 => its s1 ++ its s2
  | TryCatch body handler => its body ++ its handler
  | It name0 fn0 => (name0, fn0) :: its fn0
  | Describe _ fn0 => its fn0
  | Async body => its body
  | _ => []
  end%list.

Definition src_its (b : source) : list (string * stmt) :=
  match src_stmt b with
  | Some s => its s
  | None => []
  end.

(** The case was registered by one of the given calls of [it], under some
    group name. *)
Definition declared_by (calls0 : list (string * stmt)) (t : Test) : Prop :=
  exists name0 group,
    In (name0, fn t) calls0 /\ name t = case_name group name0.

(** The single entry reported when the execution of the text fails. *)
Definition execution_failure (msg : option string) : CaseResult :=
  {| case := "Code execution"; case_passed := false;
     error := Some ("Failed to execute code: " ++ template msg) |}.

(** The bindings of a new sandbox created in [w]. *)
Definition sandbox_of (w : World) : World := with_registry fresh_registry w.

(** How the execution of a text completes. *)
Definition src_completes (b : source) : completion :=
  match b with
  | Unparsable m => Throws (ErrorOf m)
  | Script s => completes s
  | Endless s =>
      match completes s with
      | Normal =>
          Throws (ErrorOf ("Script execution timed out after "
                             ++ Z_to_string vm_timeout ++ "ms"))
      | Throws e => Throws e
      end
  end.

(** The [message] the runner can read from what a body raised. *)
Definition thrown_message (e : exn) : option string :=
  match e with
  | ErrorOf m => Some m
  | Thrown _ => None
  end.

(** The array of cases as a loop started in [w] leaves it. *)
Definition attempted (awaits_any : bool) (w : World) : list Test :=
  tests (registry (world_after
                     (drain awaits_any (S (budget (tests (registry w)))) 0 [] w) w)).

(** The report files one entry per case, position by position: the entry at
    a position carries the name of the case at that position, passes exactly
    when the loop saw the body complete normally, and otherwise carries the
    [message] read from what the body raised. *)
Definition files_verdicts (awaits_any : bool) (cases : list Test) (rep : TestResult)
    : Prop :=
  length (results rep) = length cases
  /\ map case (results rep) = map name cases
  /\ (forall i t,
        nth_error cases i = Some t ->
        exists r,
          nth_error (results rep) i = Some r
          /\ case r = name t
          /\ (case_passed r = true <-> seen awaits_any (fn t) = Normal)
          /\ (forall e, seen awaits_any (fn t) = Throws e ->
                case_passed r = false /\ error r = thrown_message e)).

(** A callback that throws [e] after [ms] milliseconds, every time, with
    timers that fire on time. *)
Definition failing (e : exn) (ms : Z) : nat -> Attempt :=
  fun _ => {| ends := Threw e; took := ms; late := 0 |}.

(** A callback that returns a promise of the host's [Promise] class, which
    rejects with [e] after [ms] milliseconds, every time. *)
Definition rejecting (e : exn) (ms : Z) : nat -> Attempt :=
  fun _ => {| ends := ReturnedPromise (Throws e); took := ms; late := 0 |}.

(** The attempt fails with [e]: the call throws [e], or it returns an
    instance of the host's [Promise] that rejects with [e]. *)
Definition fails_with (a : Attempt) (e : exn) : Prop :=
  ends a = Threw e \/ ends a = ReturnedPromise (Throws e).

(** The attempt is taken for a success: the call returns an instance of the
    host's [Promise] that is fulfilled, or returns anything that is not such
    an instance. *)
Definition succeeds (a : Attempt) : Prop :=
  ends a = ReturnedPromise Normal \/ ends a = ReturnedOther.

(** A callback that throws [e] at once, every time, polled with an interval
    of 0 where each sleep lasts one millisecond (the shortest sleep of
    Node.js). *)
Definition hurried (e : exn) : nat -> Attempt :=
  fun _ => {| ends := Threw e; took := 0; late := 1 |}.

(** A callback that is an [async] function of a sandbox: what it returns is
    no instance of the host's [Promise], whatever it settles to. *)
Definition foreign_async (ms : Z) : nat -> Attempt :=
  fun _ => {| ends := ReturnedOther; took := ms; late := 0 |}.

(** A sample of [JSON.stringify] in a host all of whose objects are
    circular structures: serialising one raises a TypeError (its message
    abridged to its first line).  The sample stands for [JSON.stringify] on
    objects, [undefined], [null] and the booleans only. *)
Definition circular_objects (v : value) : exn + option string :=
  match v with
  | VObject _ => inl (ErrorOf "Converting circular structure to JSON")
  | VBoolean true => inr (Some "true")
  | VBoolean false => inr (Some "false")
  | VNull => inr (Some "null")
  | _ => inr None
  end.

(** A problem folder [counter/] with [src/] and [test.ts] and no
    [solution/]. *)
Definition no_solution_tree : node :=
  Dir "" [Dir "counter" [Dir "src" [File "App.tsx" "function App() {}"];
                         File "test.ts" "it('counts', () => {});"]].

(* ================================================================== *)
(** * More of the two packages                                          *)
(* ================================================================== *)

(** ** The truthiness and ordering comparators of [expect(actual)] *)

Section Comparators.

(** [`${v}`] and the conversion to a number that [<=] and [>=] apply to an
    operand compared with a number are host operations. *)
Variable ToString : value -> string.
Variable ToNumber : value -> spec_float.

(** [toBeTruthy: () => { if (!actual) throw ... }] *)
Definition toBeTruthy (actual : value) : completion :=
  if negb (truthy actual)
  then Throws (ErrorOf ("Expected truthy, got " ++ ToString actual))
  else Normal.

(** [toBeFalsy: () => { if (actual) throw ... }] *)
Definition toBeFalsy (actual : value) : completion :=
  if truthy actual
  then Throws (ErrorOf ("Expected falsy, got " ++ ToString actual))
  else Normal.

(** [toBeGreaterThan: (expected: number) => { if (actual <= expected) throw ... }] *)
Definition toBeGreaterThan (actual : value) (expected : spec_float) : completion :=
  if SFleb (ToNumber actual) expected
  then Throws (ErrorOf ("Expected " ++ ToString actual ++ " > "
                          ++ ToString (VNumber expected)))
  else Normal.

(** [toBeLessThan: (expected: number) => { if (actual >= expected) throw ... }] *)
Definition toBeLessThan (actual : value) (expected : spec_float) : completion :=
  if SFleb expected (ToNumber actual)
  then Throws (ErrorOf ("Expected " ++ ToString actual ++ " < "
                          ++ ToString (VNumber expected)))
  else Normal.

End Comparators.

(** ** [validateFileStructureMatch] *)

(** Its result, [{ valid, errors }]. *)
Record StructureMatch : Type := {
  structure_valid : bool;
  structure_errors : list string
}.

(** [files.includes(file)] *)
Definition includes (l : list string) (file : string) : bool :=
  existsb (String.eqb file) l.

Definition nat_to_string (n : nat) : string := Z_to_string (Z.of_nat n).

Section FileStructure.

Variable root : node.

(** [Array.prototype.sort()], a host operation. *)
Variable sort : list string -> list string.

(** [validateFileStructureMatch(problemPath)] *)
Definition validateFileStructureMatch (problemPath : path) : fallible StructureMatch :=
  let srcPath := join problemPath "src" in
  let solutionPath := join problemPath "solution" in
  if negb (existsSync root srcPath) then
    inr {| structure_valid := false;
           structure_errors := ["src/ folder does not exist"] |}
  else if negb (existsSync root solutionPath) then
    inr {| structure_valid := false;
           structure_errors := ["solution/ folder does not exist"] |}
  else
    match listFilesRecursive root srcPath with
    | inl e => inl e
    | inr listedSrc =>
        match listFilesRecursive root solutionPath with
        | inl e => inl e
        | inr listedSolution =>
            let srcFiles := sort (map path_string listedSrc) in
            let solutionFiles := sort (map path_string listedSolution) in
            let errors1 :=
              if negb (Nat.eqb (length srcFiles) (length solutionFiles))
              then [("File count mismatch: src/ has " ++ nat_to_string (length srcFiles)
                       ++ " files, solution/ has "
                       ++ nat_to_string (length solutionFiles) ++ " files")%string]
              else [] in
            let errors2 :=
              flat_map
                (fun file => if negb (includes solutionFiles file)
                             then [("Missing file in solution/: " ++ file)%string]
                             else [])
                srcFiles in
            let errors3 :=
              flat_map
                (fun file => if negb (includes srcFiles file)
                             then [("Extra file in solution/: " ++ file)%string]
                             else [])
                solutionFiles in
            let errors0 := (errors1 ++ errors2 ++ errors3)%list in
            inr {| structure_valid := Nat.eqb (length errors0) 0;
                   structure_errors := errors0 |}
        end
    end.

End FileStructure.

(** ** Vocabulary of the further statements *)

(** No directory of the tree holds two entries of one name. *)
Fixpoint distinct_names (names : list string) : bool :=
  match names with
  | [] => true
  | n :: rest => negb (includes rest n) && distinct_names rest
  end.

Fixpoint well_formed (n : node) : bool :=
  match n with
  | File _ _ => true
  | Dir _ entries =>
      distinct_names (map entry_name entries) && forallb well_formed entries
  end.

(** A sort of strings, by insertion, in the order of [String.leb]. *)
Fixpoint insert_sorted (x : string) (l : list string) : list string :=
  match l with
  | [] => [x]
  | y :: rest => if String.leb x y then x :: l else y :: insert_sorted x rest
  end.

Fixpoint sort_strings (l : list string) : list string :=
  match l with
  | [] => []
  | x :: rest => insert_sorted x (sort_strings rest)
  end.

(** The path leads to a file. *)
Definition is_file (root : node) (p : path) : Prop :=
  exists entry content, lookup p root = Some (File entry content).

(** A problem folder [p/] whose [src/] holds a file named [__proto__]. *)
Definition proto_tree : node :=
  Dir "" [Dir "p" [Dir "src" [File "__proto__" "x"; File "App.tsx" "function App() {}"];
                   File "test.ts" "it('runs', () => {});"]].

(** [render()] called [n] times in a row. *)
Fixpoint render_times (n : nat) (w : World) : World :=
  match n with
  | O => w
  | S n' => render_times n' (snd (render w))
  end.

(** A problem folder [counter/] with a passing [solution/], a [src/] and
    [test.ts]; the bundles that embed the solution file parse to a script
    whose case passes, the others to one whose case fails. *)
Definition counter_tree : node :=
  Dir "" [Dir "counter"
            [Dir "src" [File "App.tsx" "buggy"; Dir "lib" [File "util.ts" "u"]];
             Dir "solution" [File "App.tsx" "fixed"; Dir "lib" [File "util.ts" "u"]];
             File "test.ts" "it('counts', () => {});"]].

Definition counter_compile (bundledCode : string) : source :=
  if String.eqb bundledCode
       (bundleCodeWithTests [("App.tsx", "fixed"); ("lib/util.ts", "u")]
          "it('counts', () => {});")
  then Script (RegisterApp 1 ;; It "counts" Skip)%script
  else Script (RegisterApp 2 ;; It "counts" (Throw (ErrorOf "Expected 1, got 0")))%script.

(* ================================================================== *)
(** * Properties of the assertion engine                                *)
(* ================================================================== *)

Lemma strict_eq_same_kind (a e : value) :
  strict_eq a e = true -> kind_of a = kind_of e.
Proof.
  destruct a, e; simpl; intros H; try reflexivity; discriminate H.
Qed.

Lemma strict_eq_NaN (v : value) : strict_eq NaN v = false.
Proof.
  destruct v; reflexivity.
Qed.

Lemma SFeqb_same (x : spec_float) :
  SFeqb x x = match x with S754_nan => false | _ => true end.
Proof.
  unfold SFeqb. destruct x as [s | s | | s m e]; simpl; try reflexivity.
  - destruct s; reflexivity.
  - destruct s; rewrite Z.compare_refl, ?Pos.compare_cont_refl; reflexivity.
Qed.

(** Every value is strictly equal to itself, [NaN] alone excepted. *)
Lemma strict_eq_same (a : value) : strict_eq a a = false <-> a = NaN.
Proof.
  destruct a as [| | b | x | s | p]; simpl.
  - split; discriminate.
  - split; discriminate.
  - rewrite Bool.eqb_reflx. split; discriminate.
  - rewrite SFeqb_same. unfold NaN.
    destruct x; split; intros H; try discriminate H; reflexivity.
  - rewrite String.eqb_refl. split; discriminate.
  - rewrite Nat.eqb_refl. split; discriminate.
Qed.

Lemma strict_eq_no_coercion :
  strict_eq (num 1) (VString "1") = false
  /\ strict_eq VNull VUndefined = false
  /\ strict_eq (num 0) (VBoolean false) = false
  /\ strict_eq (num 1) (num 1) = true
  /\ strict_eq (VObject 1) (VObject 2) = false.
Proof. repeat split. Qed.

(** [expect(a).toBe(e)] raises exactly when [a] and [e] are not strictly
    equal, and completes normally otherwise; when both values serialise, what
    it raises is an [Error] whose message is "Expected ", the serialised
    expected value, ", got " and the serialised actual value, with
    "undefined" for a value that serialises to [undefined].  Strict equality
    relates only values of one type, and every value to itself except [NaN],
    so [expect(NaN).toBe(NaN)] raises.  [expect(a).not.toBe(e)] raises
    exactly when [a] and [e] are strictly equal, and then, when [e]
    serialises, with "Expected not " and the serialised [e]. *)
Theorem expect_toBe_strict_equality
    (JSON_stringify : value -> exn + option string) (a e : value) :
  ((exists err, toBe (expect JSON_stringify a) e = Throws err)
   <-> strict_eq a e = false)
  /\ (toBe (expect JSON_stringify a) e = Normal <-> strict_eq a e = true)
  /\ (forall oe oa,
        strict_eq a e = false ->
        JSON_stringify e = inr oe -> JSON_stringify a = inr oa ->
        toBe (expect JSON_stringify a) e
        = Throws (ErrorOf ("Expected "
                             ++ match oe with Some se => se | None => "undefined" end
                             ++ ", got "
                             ++ match oa with Some sa => sa | None => "undefined" end)))
  /\ (strict_eq a e = true -> kind_of a = kind_of e)
  /\ ((exists err, toBe (expect JSON_stringify a) a = Throws err) <-> a = NaN)
  /\ (exists err, toBe (expect JSON_stringify NaN) NaN = Throws err)
  /\ ((exists err, not_toBe (expect JSON_stringify a) e = Throws err)
      <-> strict_eq a e = true)
  /\ (forall oe,
        strict_eq a e = true -> JSON_stringify e = inr oe ->
        not_toBe (expect JSON_stringify a) e
        = Throws (ErrorOf ("Expected not "
                             ++ match oe with Some se => se | None => "undefined" end))).
Proof.
  assert (T : forall x y,
    (exists err, toBe (expect JSON_stringify x) y = Throws err)
    <-> strict_eq x y = false).
  { intros x y. unfold expect; cbn [toBe]. destruct (strict_eq x y); cbn [negb].
    - split; [intros [err H]; discriminate H | discriminate].
    - split; [reflexivity | intros _].
      destruct (JSON_stringify y) as [r | oe]; [now exists r |].
      destruct (JSON_stringify x) as [r | oa]; eexists; reflexivity. }
  split; [apply T |].
  split.
  { split.
    - intros H. destruct (strict_eq a e) eqn:E; [reflexivity |].
      apply T in E as [err E]. congruence.
    - intros E. unfold expect; cbn [toBe]. now rewrite E. }
  split.
  { intros oe oa E He Ha. unfold expect; cbn [toBe]. rewrite E, He, Ha.
    destruct oe, oa; reflexivity. }
  split; [apply strict_eq_same_kind |].
  split; [rewrite T; apply strict_eq_same |].
  split; [apply T, strict_eq_NaN |].
  split.
  { unfold expect; cbn [not_toBe]. destruct (strict_eq a e).
    - split; [reflexivity | intros _].
      destruct (JSON_stringify e) as [r | oe]; eexists; reflexivity.
    - split; [intros [err H]; discriminate H | discriminate]. }
  intros oe E He. unfold expect; cbn [not_toBe]. rewrite E, He.
  destruct oe; reflexivity.
Qed.

(** C7, at a value that does not serialise.  When [a] and [e] are not
    strictly equal and [JSON.stringify] raises on [e], or returns for [e] and
    raises on [a], [expect(a).toBe(e)] raises what [JSON.stringify] raised:
    not the assertion error, and nothing that embeds a serialised form of
    the two values. *)
Theorem toBe_raises_serialisation_error
    (JSON_stringify : value -> exn + option string) (a e : value) (raised : exn) :
  strict_eq a e = false ->
  JSON_stringify e = inl raised
  \/ ((exists oe, JSON_stringify e = inr oe) /\ JSON_stringify a = inl raised) ->
  toBe (expect JSON_stringify a) e = Throws raised.
Proof.
  intros E [He | [[oe He] Ha]]; unfold expect; cbn [toBe]; rewrite E, He; cbn [negb];
    [reflexivity | now rewrite Ha].
Qed.

Lemma toBe_raises_serialisation_error_witness :
  toBe (expect circular_objects (VObject 0)) VNull
  = Throws (ErrorOf "Converting circular structure to JSON").
Proof.
  apply (toBe_raises_serialisation_error circular_objects (VObject 0) VNull).
  - reflexivity.
  - right. split; [exists (Some "null") |]; reflexivity.
Defined.

(* ================================================================== *)
(** * How scripts act on a registry                                     *)
(* ================================================================== *)

Lemma budget_app (a b : list Test) : budget (a ++ b) = budget a + budget b.
Proof.
  unfold budget. now rewrite map_app, list_sum_app.
Qed.

Lemma budget_cons (t : Test) (l : list Test) :
  budget (t :: l) = S (cost (fn t)) + budget l.
Proof. reflexivity. Qed.

Lemma exec_completes (s : stmt) : forall w, fst (exec s w) = completes s.
Proof.
  induction s; intros w; simpl; try reflexivity.
  - specialize (IHs1 w). destruct (exec s1 w) as [[|e] w1]; simpl in IHs1;
      rewrite <- IHs1; [apply IHs2 | reflexivity].
  - specialize (IHs1 w). destruct (exec s1 w) as [[|e] w1]; simpl in IHs1;
      rewrite <- IHs1; [reflexivity | apply IHs2].
  - unfold describe. specialize (IHs (set_currentDescribe name0 w)).
    destruct (exec s (set_currentDescribe name0 w)) as [[|e] w1]; simpl in *;
      now rewrite <- IHs.
  - now destruct dom.
Qed.

(** A call of a test body acts on the world as running its statements does,
    and ends as the loop is said to see it. *)
Lemma call_world (awaits_any : bool) (f : stmt) (w : World) :
  snd (call awaits_any f w) = snd (exec f w).
Proof.
  destruct f, awaits_any; reflexivity.
Qed.

Lemma call_seen (awaits_any : bool) (f : stmt) (w : World) :
  fst (call awaits_any f w) = seen awaits_any f.
Proof.
  destruct awaits_any; unfold seen, settles;
    destruct f; try apply exec_completes; reflexivity.
Qed.

(** A script only ever appends to the registry it is bound to, and what it
    appends is paid for by its [cost]. *)
Lemma exec_appends (s : stmt) : forall w c w',
  exec s w = (c, w') ->
  exists added,
    tests (registry w') = (tests (registry w) ++ added)%list
    /\ budget added <= cost s.
Proof.
  induction s; intros w c w' H; simpl in H.
  - inv H. exists []. now rewrite app_nil_r.
  - destruct (exec s1 w) as [[|e] w1] eqn:E1.
    + destruct (IHs1 _ _ _ E1) as (a1 & T1 & B1).
      destruct (IHs2 _ _ _ H) as (a2 & T2 & B2).
      exists (a1 ++ a2)%list. rewrite T2, T1, app_assoc, budget_app. simpl. split; [reflexivity | lia].
    + inv H. destruct (IHs1 _ _ _ E1) as (a1 & T1 & B1).
      exists a1. simpl. split; [assumption | lia].
  - inv H. exists []. now rewrite app_nil_r.
  - destruct (exec s1 w) as [[|e] w1] eqn:E1.
    + inv H. destruct (IHs1 _ _ _ E1) as (a1 & T1 & B1).
      exists a1. simpl. split; [assumption | lia].
    + destruct (IHs1 _ _ _ E1) as (a1 & T1 & B1).
      destruct (IHs2 _ _ _ H) as (a2 & T2 & B2).
      exists (a1 ++ a2)%list. rewrite T2, T1, app_assoc, budget_app. simpl. split; [reflexivity | lia].
  - inv H. eexists. split; [reflexivity |]. unfold budget. simpl. lia.
  - unfold describe in H.
    destruct (exec s (set_currentDescribe name0 w)) as [[|e] w1] eqn:E1;
      inv H; destruct (IHs _ _ _ E1) as (a1 & T1 & B1); exists a1; simpl in *;
      (split; [assumption | lia]).
  - inv H. exists []. now rewrite app_nil_r.
  - destruct dom; inv H; exists []; now rewrite app_nil_r.
  - inv H. destruct (exec s w) as [c1 w1] eqn:E1.
    destruct (IHs _ _ _ E1) as (a1 & T1 & B1). exists a1. now split.
Qed.

(** A script without [it] leaves the array of cases as it is. *)
Lemma exec_keeps_tests (s : stmt) : forall w,
  registers s = false ->
  tests (registry (snd (exec s w))) = tests (registry w).
Proof.
  induction s; intros w R; simpl in *; try reflexivity; try discriminate.
  - apply orb_false_iff in R as [R1 R2]. specialize (IHs1 w R1).
    destruct (exec s1 w) as [[|e] w1]; simpl in *; [rewrite IHs2 |]; auto.
  - apply orb_false_iff in R as [R1 R2]. specialize (IHs1 w R1).
    destruct (exec s1 w) as [[|e] w1]; simpl in *; [| rewrite IHs2]; auto.
  - unfold describe. specialize (IHs (set_currentDescribe name0 w) R).
    destruct (exec s (set_currentDescribe name0 w)) as [[|e] w1]; simpl in *; auto.
  - now destruct dom.
  - now apply IHs.
Qed.

(** What a script does to the registry depends on the registry alone. *)
Lemma exec_registry_only (s : stmt) : forall w1 w2,
  registry w1 = registry w2 ->
  registry (snd (exec s w1)) = registry (snd (exec s w2)).
Proof.
  induction s; intros w1 w2 R; simpl; auto.
  - pose proof (exec_completes s1 w1) as C1. pose proof (exec_completes s1 w2) as C2.
    specialize (IHs1 w1 w2 R).
    destruct (exec s1 w1) as [c1 v1], (exec s1 w2) as [c2 v2]; simpl in *.
    subst c1 c2. destruct (completes s1); simpl; auto.
  - pose proof (exec_completes s1 w1) as C1. pose proof (exec_completes s1 w2) as C2.
    specialize (IHs1 w1 w2 R).
    destruct (exec s1 w1) as [c1 v1], (exec s1 w2) as [c2 v2]; simpl in *.
    subst c1 c2. destruct (completes s1); simpl; auto.
  - unfold it. simpl. now rewrite R.
  - unfold describe.
    assert (R' : registry (set_currentDescribe name0 w1)
                 = registry (set_currentDescribe name0 w2)) by (simpl; now rewrite R).
    pose proof (exec_completes s (set_currentDescribe name0 w1)) as C1.
    pose proof (exec_completes s (set_currentDescribe name0 w2)) as C2.
    specialize (IHs _ _ R').
    destruct (exec s (set_currentDescribe name0 w1)) as [c1 v1],
             (exec s (set_currentDescribe name0 w2)) as [c2 v2]; simpl in *.
    subst c1 c2. destruct (completes s); simpl; auto. now rewrite IHs.
  - now destruct dom.
Qed.

(** A script without [registerApp] and [cleanup] leaves the host variables
    alone, and so does every case it registers. *)
Lemma exec_keeps_app (s : stmt) : forall w,
  touches_app s = false -> app (snd (exec s w)) = app w.
Proof.
  induction s; intros w T; simpl in *; try reflexivity; try discriminate.
  - apply orb_false_iff in T as [T1 T2]. specialize (IHs1 w T1).
    destruct (exec s1 w) as [[|e] w1]; simpl in *; [rewrite IHs2 |]; auto.
  - apply orb_false_iff in T as [T1 T2]. specialize (IHs1 w T1).
    destruct (exec s1 w) as [[|e] w1]; simpl in *; [| rewrite IHs2]; auto.
  - unfold describe. specialize (IHs (set_currentDescribe name0 w) T).
    destruct (exec s (set_currentDescribe name0 w)) as [[|e] w1]; simpl in *; auto.
  - now apply IHs.
Qed.

Lemma exec_registers_quiet (s : stmt) : forall w,
  touches_app s = false ->
  Forall quiet (tests (registry w)) ->
  Forall quiet (tests (registry (snd (exec s w)))).
Proof.
  induction s; intros w T Q; simpl in *; auto; try discriminate.
  - apply orb_false_iff in T as [T1 T2]. specialize (IHs1 w T1 Q).
    destruct (exec s1 w) as [[|e] w1]; simpl in *; auto.
  - apply orb_false_iff in T as [T1 T2]. specialize (IHs1 w T1 Q).
    destruct (exec s1 w) as [[|e] w1]; simpl in *; auto.
  - apply Forall_app. split; [assumption |]. constructor; [exact T | constructor].
  - unfold describe. specialize (IHs (set_currentDescribe name0 w) T Q).
    destruct (exec s (set_currentDescribe name0 w)) as [[|e] w1]; simpl in *; auto.
Qed.

(* ================================================================== *)
(** * The drain loop                                                    *)
(* ================================================================== *)

Lemma nth_error_skipn {A : Type} (l : list A) (i : nat) (x : A) :
  nth_error l i = Some x -> skipn i l = x :: skipn (S i) l.
Proof.
  revert i. induction l as [| y l IH]; intros [| i] H; simpl in *; try discriminate.
  - now inv H.
  - now apply IH.
Qed.

Lemma nth_error_none_skipn {A : Type} (l : list A) (i : nat) :
  nth_error l i = None -> skipn i l = [].
Proof.
  intros H. apply skipn_all2. now apply nth_error_None.
Qed.

Lemma skipn_app_le {A : Type} (l added : list A) (i : nat) :
  i <= length l -> skipn i (l ++ added) = (skipn i l ++ added)%list.
Proof.
  intros H. rewrite skipn_app.
  replace (i - length l) with 0 by lia. reflexivity.
Qed.

Lemma call_appends (a : bool) (f : stmt) (w : World) (c : completion) (w' : World) :
  call a f w = (c, w') ->
  exists added,
    tests (registry w') = (tests (registry w) ++ added)%list
    /\ budget added <= cost f.
Proof.
  intros H. pose proof (call_world a f w) as W. rewrite H in W. simpl in W. subst w'.
  destruct (exec f w) as [c1 w1] eqn:E. simpl. eapply exec_appends; eassumption.
Qed.

(** Started with more fuel than the pending cases can cost, the loop ends. *)
Lemma drain_ends (a : bool) (fuel : nat) : forall i acc w,
  budget (skipn i (tests (registry w))) < fuel ->
  drain a fuel i acc w <> OutOfFuel.
Proof.
  induction fuel as [| fuel IH]; intros i acc w B; [lia |].
  simpl. destruct (nth_error (tests (registry w)) i) as [t |] eqn:N; [| discriminate].
  pose proof (nth_error_skipn _ _ _ N) as K.
  assert (L : S i <= length (tests (registry w))).
  { apply Nat.le_succ_l. apply nth_error_Some. now rewrite N. }
  destruct (call a (fn t) w) as [c w1] eqn:E.
  destruct (call_appends _ _ _ _ _ E) as (added & T & C).
  assert (B1 : budget (skipn (S i) (tests (registry w1))) < fuel).
  { rewrite T, skipn_app_le, budget_app by exact L.
    rewrite K, budget_cons in B. lia. }
  destruct c as [| e]; [now apply IH |].
  destruct (message_of e); [discriminate | now apply IH].
Qed.

(** What the loop returns: one entry per case of the array as it stands
    when the loop ends, in the order of the array; the array has only grown;
    no visited case was seen to fail with [null] or [undefined]. *)
Lemma drain_returns (a : bool) (fuel : nat) : forall i acc w rs w',
  drain a fuel i acc w = Returns rs w' ->
  rs = (acc ++ map (filed a) (skipn i (tests (registry w'))))%list
  /\ (exists added, tests (registry w') = (tests (registry w) ++ added)%list)
  /\ Forall (fun t => nullish (seen a (fn t)) = false) (skipn i (tests (registry w'))).
Proof.
  induction fuel as [| fuel IH]; intros i acc w rs w' H; [discriminate |].
  simpl in H. destruct (nth_error (tests (registry w)) i) as [t |] eqn:N.
  - destruct (call a (fn t) w) as [c w1] eqn:E.
    destruct (call_appends _ _ _ _ _ E) as (added & T & _).
    pose proof (call_seen a (fn t) w) as C. rewrite E in C. simpl in C.
    assert (step : forall r,
      drain a fuel (S i) (acc ++ [r]) w1 = Returns rs w' ->
      r = filed a t -> nullish (seen a (fn t)) = false ->
      rs = (acc ++ map (filed a) (skipn i (tests (registry w'))))%list
      /\ (exists added, tests (registry w') = (tests (registry w) ++ added)%list)
      /\ Forall (fun t => nullish (seen a (fn t)) = false) (skipn i (tests (registry w')))).
    { intros r D V F. destruct (IH _ _ _ _ _ D) as (R & (added' & T') & A).
      assert (N' : nth_error (tests (registry w')) i = Some t).
      { rewrite T', T, <- app_assoc. rewrite nth_error_app1; [exact N |].
        apply nth_error_Some. now rewrite N. }
      rewrite (nth_error_skipn _ _ _ N'). split; [| split].
      - rewrite R, <- app_assoc. simpl. now rewrite V.
      - exists (added ++ added')%list. now rewrite T', T, app_assoc.
      - now constructor. }
    destruct c as [| e].
    + apply (step _ H); unfold filed, entry_for, nullish; now rewrite <- C.
    + destruct (message_of e) as [te | msg] eqn:M; [discriminate |].
      apply (step _ H); unfold filed, entry_for, nullish; rewrite <- C.
      * now rewrite M.
      * destruct e as [m | []]; simpl in M; try reflexivity; discriminate.
  - inv H. rewrite (nth_error_none_skipn _ _ N). simpl. rewrite app_nil_r.
    split; [reflexivity | split; [| constructor]].
    exists []. now rewrite app_nil_r.
Qed.

Lemma message_of_raises (e te : exn) :
  message_of e = inl te -> exists v, te = ErrorOf (TypeError_message v).
Proof.
  destruct e as [m | []]; simpl; intros H; inv H;
    [exists VUndefined | exists VNull]; reflexivity.
Qed.

(** The loop rejects only with the TypeError raised when [e.message] is read
    from [null] or [undefined], and then leaves the array of cases in place
    and the failing case in it. *)
Lemma drain_rejects (a : bool) (fuel : nat) : forall i acc w e w',
  drain a fuel i acc w = Rejects e w' ->
  (exists v, e = ErrorOf (TypeError_message v))
  /\ exists t, In t (tests (registry w')) /\ nullish (seen a (fn t)) = true.
Proof.
  induction fuel as [| fuel IH]; intros i acc w e w' H; [discriminate |].
  simpl in H. destruct (nth_error (tests (registry w)) i) as [t |] eqn:N; [| discriminate].
  pose proof (call_seen a (fn t) w) as C.
  destruct (call a (fn t) w) as [[| e0] w1] eqn:E; [now apply (IH _ _ _ _ _ H) |].
  destruct (message_of e0) as [te | msg] eqn:M; [| now apply (IH _ _ _ _ _ H)].
  inv H. split; [eapply message_of_raises; eassumption |].
  destruct (call_appends _ _ _ _ _ E) as (added & T & _).
  exists t. split.
  - rewrite T. apply in_or_app. left. eapply nth_error_In; eassumption.
  - simpl in C. rewrite <- C. destruct e0 as [m | []]; simpl in M; try discriminate;
      reflexivity.
Qed.

(** What the loop answers depends on the registry alone. *)
Lemma drain_registry_only (a : bool) (fuel : nat) : forall i acc w1 w2,
  registry w1 = registry w2 ->
  answer (drain a fuel i acc w1) = answer (drain a fuel i acc w2)
  /\ registry (world_after (drain a fuel i acc w1) w1)
     = registry (world_after (drain a fuel i acc w2) w2).
Proof.
  induction fuel as [| fuel IH]; intros i acc w1 w2 R; simpl; [now split |].
  rewrite <- R. destruct (nth_error (tests (registry w1)) i) as [t |]; [| now split].
  pose proof (call_seen a (fn t) w1) as C1.
  pose proof (call_seen a (fn t) w2) as C2.
  pose proof (exec_registry_only (fn t) w1 w2 R) as R'.
  rewrite <- !(call_world a) in R'.
  destruct (call a (fn t) w1) as [c1 v1], (call a (fn t) w2) as [c2 v2]; simpl in *.
  subst c1 c2. destruct (seen a (fn t)) as [| e].
  - destruct (IH (S i) (acc ++ [{| case := name t; case_passed := true; error := None |}])%list
               v1 v2 R') as [A W].
    split; [exact A |].
    destruct (drain a fuel (S i) _ v1), (drain a fuel (S i) _ v2); simpl in *;
      try discriminate; auto.
  - destruct (message_of e) as [te | msg]; [now split |].
    destruct (IH (S i) (acc ++ [{| case := name t; case_passed := false; error := msg |}])%list
               v1 v2 R') as [A W].
    split; [exact A |].
    destruct (drain a fuel (S i) _ v1), (drain a fuel (S i) _ v2); simpl in *;
      try discriminate; auto.
Qed.

Lemma budget_ge_length (l : list Test) : length l <= budget l.
Proof.
  induction l as [| t l IH]; [apply Nat.le_refl |]. rewrite budget_cons. simpl. lia.
Qed.

(** With bodies that register nothing the array stays as it is, however the
    loop ends. *)
Lemma drain_keeps_tests (a : bool) (fuel : nat) : forall i acc w,
  Forall (fun t => registers (fn t) = false) (tests (registry w)) ->
  tests (registry (world_after (drain a fuel i acc w) w)) = tests (registry w).
Proof.
  induction fuel as [| fuel IH]; intros i acc w R; simpl; [reflexivity |].
  destruct (nth_error (tests (registry w)) i) as [t |] eqn:N; [| reflexivity].
  assert (Rt : registers (fn t) = false).
  { rewrite Forall_forall in R. apply R. eapply nth_error_In; eassumption. }
  pose proof (exec_keeps_tests (fn t) w Rt) as T. rewrite <- (call_world a) in T.
  destruct (call a (fn t) w) as [c w1]; simpl in T.
  assert (step : forall r,
    tests (registry (world_after (drain a fuel (S i) (acc ++ [r]) w1) w))
    = tests (registry w)).
  { intros r. rewrite <- T in R. specialize (IH (S i) (acc ++ [r])%list w1 R).
    destruct (drain a fuel (S i) (acc ++ [r]) w1); simpl in *; congruence. }
  destruct c as [| e]; [apply step |].
  destruct (message_of e); [exact T | apply step].
Qed.

(** With bodies that register nothing the loop files one entry per case
    unless a body is seen to fail with [null] or [undefined]. *)
Lemma drain_static (a : bool) (fuel : nat) : forall i acc w,
  Forall (fun t => registers (fn t) = false) (tests (registry w)) ->
  Forall (fun t => nullish (seen a (fn t)) = false) (skipn i (tests (registry w))) ->
  length (skipn i (tests (registry w))) < fuel ->
  exists w',
    drain a fuel i acc w
    = Returns (acc ++ map (filed a) (skipn i (tests (registry w))))%list w'
    /\ tests (registry w') = tests (registry w).
Proof.
  induction fuel as [| fuel IH]; intros i acc w R F L; [lia |].
  simpl. destruct (nth_error (tests (registry w)) i) as [t |] eqn:N.
  - pose proof (nth_error_skipn _ _ _ N) as K. rewrite K in F, L |- *.
    inversion F as [| ? ? Ft F']; subst. cbn [length] in L.
    assert (Rt : registers (fn t) = false).
    { rewrite Forall_forall in R. apply R. eapply nth_error_In; eassumption. }
    pose proof (exec_keeps_tests (fn t) w Rt) as T. rewrite <- (call_world a) in T.
    pose proof (call_seen a (fn t) w) as C.
    destruct (call a (fn t) w) as [c w1]; simpl in T, C.
    assert (step : forall r, r = filed a t ->
      exists w',
        drain a fuel (S i) (acc ++ [r]) w1
        = Returns (acc ++ map (filed a) (t :: skipn (S i) (tests (registry w))))%list w'
        /\ tests (registry w') = tests (registry w)).
    { intros r V.
      destruct (IH (S i) (acc ++ [r])%list w1) as (w' & D & T');
        try (rewrite T; assumption); [rewrite T; lia |].
      exists w'. rewrite D, T, <- app_assoc, V, T'. simpl. now rewrite T. }
    unfold filed, entry_for in step. rewrite <- C in Ft, step.
    destruct c as [| e]; [now apply step |].
    destruct e as [m | v]; simpl; [now apply step |].
    destruct v; simpl in *; try discriminate; now apply step.
  - rewrite (nth_error_none_skipn _ _ N). simpl. rewrite app_nil_r.
    exists w. now split.
Qed.

(** Cases that leave the host variables alone leave them alone when run. *)
Lemma drain_keeps_app (a : bool) (fuel : nat) : forall i acc w,
  Forall quiet (tests (registry w)) ->
  app (world_after (drain a fuel i acc w) w) = app w.
Proof.
  induction fuel as [| fuel IH]; intros i acc w Q; simpl; [reflexivity |].
  destruct (nth_error (tests (registry w)) i) as [t |] eqn:N; [| reflexivity].
  assert (Qt : quiet t).
  { rewrite Forall_forall in Q. apply Q. eapply nth_error_In; eassumption. }
  pose proof (exec_keeps_app (fn t) w Qt) as K.
  pose proof (exec_registers_quiet (fn t) w Qt Q) as Q1.
  rewrite <- (call_world a) in K, Q1.
  destruct (call a (fn t) w) as [c w1]; simpl in K, Q1.
  assert (step : forall r,
    app (world_after (drain a fuel (S i) (acc ++ [r]) w1) w) = app w).
  { intros r. specialize (IH (S i) (acc ++ [r])%list w1 Q1).
    destruct (drain a fuel (S i) (acc ++ [r]) w1); simpl in *; congruence. }
  destruct c as [| e]; [apply step |].
  destruct (message_of e); [exact K | apply step].
Qed.

(** [runTests] and [runTestsInVM] never run out of fuel. *)
Lemma runTests_settles (w : World) : answer (runTests w) <> None.
Proof.
  unfold runTests.
  pose proof (drain_ends true (S (budget (tests (registry w)))) 0 [] w) as E.
  simpl skipn in E. specialize (E (Nat.lt_succ_diag_r _)).
  destruct (drain true _ 0 [] w); simpl; congruence.
Qed.

(** [runTests] always settles: the loop reads the live array and a running
    body may register further cases, but what a body can register is paid
    for by its cost, so the loop ends and the promise is fulfilled with a
    report or rejected. *)
Theorem runTests_total (w : World) : answer (runTests w) <> None.
Proof.
  apply runTests_settles.
Qed.

Lemma runTestsInVM_total (env : Env) (b : source) (w : World) :
  answer (runTestsInVM env b w) <> None.
Proof.
  unfold runTestsInVM.
  destruct (negb (has_process env) || negb (has_require env)); [discriminate |].
  destruct (runInContext b (with_registry fresh_registry w)) as [[| e] s1].
  - pose proof (drain_ends false (S (budget (tests (registry s1)))) 0 [] s1) as E.
    simpl skipn in E. specialize (E (Nat.lt_succ_diag_r _)).
    destruct (drain false _ 0 [] s1); simpl; congruence.
  - destruct (message_of e); discriminate.
Qed.

(* ================================================================== *)
(** * The local runner                                                  *)
(* ================================================================== *)

Lemma forallb_negb_Forall {A : Type} (p : A -> bool) (l : list A) :
  forallb (fun x => negb (p x)) l = true -> Forall (fun x => p x = false) l.
Proof.
  intros H. rewrite forallb_forall in H. apply Forall_forall. intros x I.
  specialize (H x I). now destruct (p x).
Qed.

Lemma filed_case (a : bool) (ts : list Test) :
  map case (map (filed a) ts) = map name ts.
Proof.
  rewrite map_map. apply map_ext. intros t. unfold filed, entry_for.
  now destruct (seen a (fn t)).
Qed.

(** When no registered body registers cases itself and none, awaited, fails
    by raising [null] or [undefined], [runTests] returns a report with
    exactly one entry per registered case, in registration order, each entry
    the verdict on its case; [passed] is the conjunction of the entries'
    [passed]; the registry is left empty; and over an empty registry the
    report is [{ passed: true, results: [] }]. *)
Theorem runTests_one_entry_per_case (w : World) :
  static (tests (registry w)) = true ->
  no_nullish_failure (tests (registry w)) = true ->
  exists rep w',
    runTests w = Returns rep w'
    /\ results rep = map awaited_verdict (tests (registry w))
    /\ map case (results rep) = map name (tests (registry w))
    /\ length (results rep) = length (tests (registry w))
    /\ passed rep = forallb case_passed (results rep)
    /\ tests (registry w') = []
    /\ (tests (registry w) = [] -> rep = {| passed := true; results := [] |}).
Proof.
  intros HS HN. apply forallb_negb_Forall in HS. apply forallb_negb_Forall in HN.
  destruct (drain_static true (S (budget (tests (registry w)))) 0 [] w HS HN)
    as (w1 & D & T).
  { simpl. pose proof (budget_ge_length (tests (registry w))). lia. }
  unfold runTests. rewrite D. simpl.
  exists (report (map awaited_verdict (tests (registry w)))), (clear_tests w1).
  split; [reflexivity |]. cbn [results report].
  split; [reflexivity |].
  split; [apply (filed_case true) |].
  split; [apply length_map |].
  split; [reflexivity |].
  split; [reflexivity |].
  intros E. now rewrite E.
Qed.

Lemma runTests_one_entry_per_case_witness :
  exists rep w',
    runTests (registered [{| name := "adds"; fn := Skip |};
                          {| name := "fails";
                             fn := Async (Throw (ErrorOf "Expected 2, got 3")) |}])
    = Returns rep w'
    /\ results rep
       = [{| case := "adds"; case_passed := true; error := None |};
          {| case := "fails"; case_passed := false; error := Some "Expected 2, got 3" |}]
    /\ passed rep = false.
Proof.
  destruct (runTests_one_entry_per_case
              (registered [{| name := "adds"; fn := Skip |};
                           {| name := "fails";
                              fn := Async (Throw (ErrorOf "Expected 2, got 3")) |}])
              eq_refl eq_refl) as (rep & w' & R & E & _ & _ & P & _).
  exists rep, w'. split; [exact R |]. split; [exact E |].
  rewrite P, E. reflexivity.
Defined.

(** C4, at a case whose body raises [null].  The registry holds one case,
    whose body registers nothing and raises [null]: reading [e.message] in
    the [catch] block raises a TypeError, [runTests] rejects with it, and no
    report with an entry for the case is returned. *)
Theorem runTests_rejects_on_null :
  static [{| name := "a"; fn := Throw (Thrown VNull) |}] = true
  /\ runTests (registered [{| name := "a"; fn := Throw (Thrown VNull) |}])
     = Rejects (ErrorOf "Cannot read properties of null (reading 'message')")
         (registered [{| name := "a"; fn := Throw (Thrown VNull) |}])
  /\ (forall rep w',
        runTests (registered [{| name := "a"; fn := Throw (Thrown VNull) |}])
        <> Returns rep w').
Proof.
  split; [reflexivity |]. split; [reflexivity |].
  intros rep w' H. discriminate H.
Qed.

(** C8, at a run with a case whose body raises [null].  The call of
    [runTests] is left by the TypeError before [tests.length = 0]: the
    registry still holds both cases, the passing one included, and a second
    call with nothing registered in between runs them again and rejects
    again instead of returning [{ passed: true, results: [] }]. *)
Theorem runTests_rejection_keeps_registry :
  let w := registered [{| name := "ok"; fn := Skip |};
                       {| name := "a"; fn := Throw (Thrown VNull) |}] in
  let w' := world_after (runTests w) w in
  answer (runTests w)
  = Some (inl (ErrorOf "Cannot read properties of null (reading 'message')"))
  /\ tests (registry w')
     = [{| name := "ok"; fn := Skip |}; {| name := "a"; fn := Throw (Thrown VNull) |}]
  /\ answer (runTests w')
     = Some (inl (ErrorOf "Cannot read properties of null (reading 'message')"))
  /\ answer (runTests w') <> Some (inr {| passed := true; results := [] |}).
Proof.
  repeat split. discriminate.
Qed.

(** When a call of [runTests] returns its report the registry is empty,
    however many cases failed, and a second call with nothing registered in
    between returns exactly [{ passed: true, results: [] }], leaving the
    registry empty. *)
Theorem runTests_resets_registry (w : World) (rep : TestResult) (w' : World) :
  runTests w = Returns rep w' ->
  tests (registry w') = []
  /\ runTests w' = Returns {| passed := true; results := [] |} w'.
Proof.
  unfold runTests. intros H.
  destruct (drain true (S (budget (tests (registry w)))) 0 [] w) as [rs w1 | |];
    try discriminate.
  inv H. split; reflexivity.
Qed.

Lemma runTests_resets_registry_witness :
  exists rep w',
    runTests (registered [{| name := "ok"; fn := Skip |};
                          {| name := "ko"; fn := Throw (ErrorOf "boom") |};
                          {| name := "ko too"; fn := Throw (Thrown (VString "x")) |}])
    = Returns rep w'
    /\ passed rep = false
    /\ tests (registry w') = []
    /\ runTests w' = Returns {| passed := true; results := [] |} w'.
Proof.
  set (w := registered [{| name := "ok"; fn := Skip |};
                         {| name := "ko"; fn := Throw (ErrorOf "boom") |};
                         {| name := "ko too"; fn := Throw (Thrown (VString "x")) |}]).
  set (rep := report [{| case := "ok"; case_passed := true; error := None |};
                      {| case := "ko"; case_passed := false; error := Some "boom" |};
                      {| case := "ko too"; case_passed := false; error := None |}]).
  assert (H : runTests w = Returns rep (clear_tests w)) by reflexivity.
  exists rep, (clear_tests w). split; [exact H |]. split; [reflexivity |].
  exact (runTests_resets_registry w rep (clear_tests w) H).
Defined.

(* ================================================================== *)
(** * The sandbox runner                                                *)
(* ================================================================== *)

Lemma is_node_gate (env : Env) :
  is_node env = true -> negb (has_process env) || negb (has_require env) = false.
Proof.
  unfold is_node. destruct (has_process env), (has_require env); simpl; congruence.
Qed.

Lemma its_nested (s : stmt) : forall n f,
  In (n, f) (its s) -> incl (its f) (its s).
Proof.
  induction s; simpl; intros n f I; try contradiction.
  - apply in_app_or in I as [I | I].
    + apply incl_appl. eapply IHs1; eassumption.
    + apply incl_appr. eapply IHs2; eassumption.
  - apply in_app_or in I as [I | I].
    + apply incl_appl. eapply IHs1; eassumption.
    + apply incl_appr. eapply IHs2; eassumption.
  - destruct I as [I | I].
    + inv I. apply incl_tl, incl_refl.
    + apply incl_tl. eapply IHs; eassumption.
  - eapply IHs; eassumption.
  - eapply IHs; eassumption.
Qed.

Lemma exec_declared (calls0 : list (string * stmt)) (s : stmt) : forall w,
  incl (its s) calls0 ->
  Forall (declared_by calls0) (tests (registry w)) ->
  Forall (declared_by calls0) (tests (registry (snd (exec s w)))).
Proof.
  induction s; intros w I D; simpl in *; auto.
  - apply incl_app_inv in I as [I1 I2]. specialize (IHs1 w I1 D).
    destruct (exec s1 w) as [[| e] w1]; simpl in *; auto.
  - apply incl_app_inv in I as [I1 I2]. specialize (IHs1 w I1 D).
    destruct (exec s1 w) as [[| e] w1]; simpl in *; auto.
  - apply Forall_app. split; [assumption |]. constructor; [| constructor].
    exists name0, (currentDescribe (registry w)). simpl.
    split; [apply I; now left | reflexivity].
  - unfold describe. specialize (IHs (set_currentDescribe name0 w) I D).
    destruct (exec s (set_currentDescribe name0 w)) as [[| e] w1]; simpl in *; auto.
  - now destruct dom.
Qed.

Lemma drain_declared (a : bool) (calls0 : list (string * stmt)) (fuel : nat) :
  forall i acc w,
  (forall n f, In (n, f) calls0 -> incl (its f) calls0) ->
  Forall (declared_by calls0) (tests (registry w)) ->
  Forall (declared_by calls0) (tests (registry (world_after (drain a fuel i acc w) w))).
Proof.
  induction fuel as [| fuel IH]; intros i acc w N D; simpl; [assumption |].
  destruct (nth_error (tests (registry w)) i) as [t |] eqn:E; [| assumption].
  assert (Dt : declared_by calls0 t).
  { rewrite Forall_forall in D. apply D. eapply nth_error_In; eassumption. }
  destruct Dt as (n & group & I & _).
  pose proof (exec_declared calls0 (fn t) w (N _ _ I) D) as D1.
  rewrite <- (call_world a) in D1.
  destruct (call a (fn t) w) as [c w1]; simpl in D1.
  assert (step : forall r,
    Forall (declared_by calls0)
      (tests (registry (world_after (drain a fuel (S i) (acc ++ [r]) w1) w)))).
  { intros r. specialize (IH (S i) (acc ++ [r])%list w1 N D1).
    destruct (drain a fuel (S i) (acc ++ [r]) w1); simpl in *; assumption. }
  destruct c as [| e]; [apply step |].
  destruct (message_of e); [exact D1 | apply step].
Qed.

Lemma runInContext_completes (b : source) (w : World) :
  fst (runInContext b w) = src_completes b.
Proof.
  destruct b as [m | s | s]; simpl; [reflexivity | apply exec_completes |].
  pose proof (exec_completes s w) as C.
  destruct (exec s w) as [[| e] w1]; simpl in C; now rewrite <- C.
Qed.

Lemma runInContext_registry_only (b : source) (w1 w2 : World) :
  registry w1 = registry w2 ->
  registry (snd (runInContext b w1)) = registry (snd (runInContext b w2)).
Proof.
  intros R. destruct b as [m | s | s]; simpl;
    [exact R | now apply exec_registry_only |].
  pose proof (exec_registry_only s w1 w2 R) as R'.
  pose proof (exec_completes s w1) as C1. pose proof (exec_completes s w2) as C2.
  destruct (exec s w1) as [c1 v1], (exec s w2) as [c2 v2]; simpl in *.
  subst c1 c2. destruct (completes s); exact R'.
Qed.

Lemma runInContext_declared (b : source) (w : World) :
  Forall (declared_by (src_its b)) (tests (registry (snd (runInContext b (sandbox_of w))))).
Proof.
  destruct b as [m | s | s]; simpl; [constructor | |].
  - apply exec_declared; [apply incl_refl | constructor].
  - pose proof (exec_declared (its s) s (sandbox_of w) (incl_refl _) (Forall_nil _)) as D.
    unfold src_its. simpl.
    destruct (exec s (sandbox_of w)) as [[| e] w1]; exact D.
Qed.

Lemma runInContext_keeps_app (b : source) (w : World) :
  src_touches_app b = false ->
  Forall quiet (tests (registry w)) ->
  app (snd (runInContext b w)) = app w
  /\ Forall quiet (tests (registry (snd (runInContext b w)))).
Proof.
  intros T Q. destruct b as [m | s | s]; simpl; [now split | |].
  - split; [now apply exec_keeps_app | now apply exec_registers_quiet].
  - pose proof (exec_keeps_app s w T) as K.
    pose proof (exec_registers_quiet s w T Q) as Q1.
    destruct (exec s w) as [[| e] w1]; now split.
Qed.

Lemma src_its_nested (b : source) : forall n f,
  In (n, f) (src_its b) -> incl (its f) (src_its b).
Proof.
  unfold src_its. destruct (src_stmt b); [apply its_nested | contradiction].
Qed.

(** The answer of the sandbox runner is a function of the text and of the
    environment: the world it is called in has no part in it. *)
Lemma runTestsInVM_answer (env : Env) (b : source) (w1 w2 : World) :
  answer (runTestsInVM env b w1) = answer (runTestsInVM env b w2).
Proof.
  unfold runTestsInVM.
  destruct (negb (has_process env) || negb (has_require env)); [reflexivity |].
  pose proof (runInContext_completes b (with_registry fresh_registry w1)) as C1.
  pose proof (runInContext_completes b (with_registry fresh_registry w2)) as C2.
  pose proof (runInContext_registry_only b (with_registry fresh_registry w1)
                (with_registry fresh_registry w2) eq_refl) as R.
  destruct (runInContext b (with_registry fresh_registry w1)) as [c1 s1],
           (runInContext b (with_registry fresh_registry w2)) as [c2 s2];
    simpl in C1, C2, R.
  subst c1 c2. destruct (src_completes b) as [| e].
  - rewrite R.
    destruct (drain_registry_only false (S (budget (tests (registry s2)))) 0 [] s1 s2 R)
      as [A _].
    remember (S (budget (tests (registry s2)))) as fuel.
    destruct (drain false fuel 0 [] s1), (drain false fuel 0 [] s2); simpl in *; congruence.
  - destruct (message_of e); reflexivity.
Qed.

(** The module's own registry is out of the sandbox's reach. *)
Lemma runTestsInVM_keeps_registry (env : Env) (b : source) (w : World) :
  registry (world_after (runTestsInVM env b w) w) = registry w.
Proof.
  unfold runTestsInVM.
  destruct (negb (has_process env) || negb (has_require env)); [reflexivity |].
  destruct (runInContext b (with_registry fresh_registry w)) as [[| e] s1].
  - destruct (drain false _ 0 [] s1); reflexivity.
  - destruct (message_of e); reflexivity.
Qed.

(** A report of the sandbox runner is the entry for the failed execution,
    or the verdicts on the cases registered by the text. *)
Lemma runTestsInVM_returns (env : Env) (b : source) (w : World)
    (rep : TestResult) (w' : World) :
  runTestsInVM env b w = Returns rep w' ->
  match src_completes b with
  | Throws e =>
      exists msg,
        message_of e = inr msg
        /\ rep = {| passed := false; results := [execution_failure msg] |}
  | Normal =>
      exists attempted,
        Forall (declared_by (src_its b)) attempted
        /\ rep = report (map verdict attempted)
  end.
Proof.
  unfold runTestsInVM.
  destruct (negb (has_process env) || negb (has_require env)); [discriminate |].
  pose proof (runInContext_declared b w) as D. unfold sandbox_of in D.
  pose proof (runInContext_completes b (with_registry fresh_registry w)) as C.
  destruct (runInContext b (with_registry fresh_registry w)) as [c s1];
    cbn [fst snd] in D, C.
  subst c. destruct (src_completes b) as [| e].
  - pose proof (drain_declared false (src_its b) (S (budget (tests (registry s1)))) 0 [] s1
                  (src_its_nested b) D) as D'.
    remember (S (budget (tests (registry s1)))) as fuel.
    destruct (drain false fuel 0 [] s1) as [rs s2 | |] eqn:E; try discriminate.
    intros H. inv H. exists (tests (registry s2)).
    destruct (drain_returns _ _ _ _ _ _ _ E) as (R & _ & _).
    simpl in D', R. now subst rs.
  - destruct (message_of e) as [te | msg]; [discriminate |].
    intros H. inv H. now exists msg.
Qed.

Lemma runTestsInVM_entries (env : Env) (b : source) (w : World)
    (rep : TestResult) (w' : World) :
  runTestsInVM env b w = Returns rep w' ->
  (exists msg, rep = {| passed := false; results := [execution_failure msg] |})
  \/ (exists attempted,
        Forall (declared_by (src_its b)) attempted
        /\ rep = report (map verdict attempted)).
Proof.
  intros H. apply runTestsInVM_returns in H.
  destruct (src_completes b).
  - now right.
  - left. destruct H as (msg & _ & E). now exists msg.
Qed.

(** C1.  Running a text [B] in the sandbox after a text [A] answers exactly
    as running [B] without [A] before it; the module's own registry is not
    touched by a sandbox run; every entry of [B]'s report stands for a case
    registered by a call of [it] in [B] (or is the entry for [B]'s failed
    execution); and when [B] executes normally and registers nothing, its
    report has no entry at all, whatever [A] registered. *)
Theorem sandbox_registry_isolation (env : Env) (A B : source) (w : World) :
  let w1 := world_after (runTestsInVM env A w) w in
  answer (runTestsInVM env B w1) = answer (runTestsInVM env B w)
  /\ answer (runTestsInVM env B w1) = answer (runTestsInVM env B pristine)
  /\ registry w1 = registry w
  /\ (forall rep w2,
        runTestsInVM env B w1 = Returns rep w2 ->
        (exists msg, rep = {| passed := false; results := [execution_failure msg] |})
        \/ (exists attempted,
              Forall (declared_by (src_its B)) attempted
              /\ rep = report (map verdict attempted)))
  /\ (is_node env = true ->
      src_registers B = false ->
      src_completes B = Normal ->
      exists w2,
        runTestsInVM env B w1 = Returns {| passed := true; results := [] |} w2).
Proof.
  intros w1.
  split; [apply runTestsInVM_answer |].
  split; [apply runTestsInVM_answer |].
  split; [apply runTestsInVM_keeps_registry |].
  split; [intros rep w2; apply runTestsInVM_entries |].
  intros N R C. unfold runTestsInVM. rewrite (is_node_gate env N).
  destruct B as [m | s | s]; simpl in R, C; try discriminate.
  - unfold src_registers in R. simpl in R. simpl runInContext.
    pose proof (exec_completes s (with_registry fresh_registry w1)) as Cs.
    pose proof (exec_keeps_tests s (with_registry fresh_registry w1) R) as T.
    destruct (exec s (with_registry fresh_registry w1)) as [c s1]; simpl in Cs, T.
    rewrite Cs, C. simpl. rewrite T. eexists. reflexivity.
  - destruct (completes s); discriminate.
Qed.

Lemma sandbox_registry_isolation_witness :
  exists w2,
    runTestsInVM node_env (Script Skip)
      (world_after (runTestsInVM node_env (Script (It "foo" Skip)) pristine) pristine)
    = Returns {| passed := true; results := [] |} w2.
Proof.
  destruct (sandbox_registry_isolation node_env (Script (It "foo" Skip)) (Script Skip)
              pristine) as (_ & _ & _ & _ & H).
  exact (H eq_refl eq_refl eq_refl).
Defined.

(** When the execution of the text raises something whose [message] can be
    read (a syntax error, an uncaught error, the time limit, any value but
    [null] and [undefined]), [runTestsInVM] returns a report with the single
    entry "Code execution", [passed: false], whose error is
    "Failed to execute code: " followed by that message, or by "undefined"
    when the raised value has none; the cases registered before the failure
    are not run and do not appear. *)
Theorem runTestsInVM_execution_abort (env : Env) (bundledCode : source) (w : World)
    (e : exn) (msg : option string) (s1 : World) :
  is_node env = true ->
  runInContext bundledCode (sandbox_of w) = (Throws e, s1) ->
  message_of e = inr msg ->
  runTestsInVM env bundledCode w
  = Returns
      {| passed := false;
         results := [{| case := "Code execution"; case_passed := false;
                        error := Some ("Failed to execute code: "
                                         ++ match msg with
                                            | Some m => m
                                            | None => "undefined"
                                            end) |}] |}
      (with_app (app s1) w).
Proof.
  intros N X M. unfold runTestsInVM. rewrite (is_node_gate env N).
  unfold sandbox_of in X. rewrite X, M. now destruct msg.
Qed.

Lemma runTestsInVM_execution_abort_witness :
  tests (registry (snd (runInContext
                          (Script (It "registered" (Throw (ErrorOf "never run"))
                                   ;; Throw (ErrorOf "boom"))%script)
                          (sandbox_of pristine))))
  = [{| name := "registered"; fn := Throw (ErrorOf "never run") |}]
  /\ runTestsInVM node_env
       (Script (It "registered" (Throw (ErrorOf "never run")) ;; Throw (ErrorOf "boom"))%script)
       pristine
     = Returns
         {| passed := false;
            results := [{| case := "Code execution"; case_passed := false;
                           error := Some "Failed to execute code: boom" |}] |}
         pristine.
Proof.
  split; [reflexivity |].
  exact (runTestsInVM_execution_abort node_env
           (Script (It "registered" (Throw (ErrorOf "never run")) ;; Throw (ErrorOf "boom"))%script)
           pristine (ErrorOf "boom") (Some "boom") _ eq_refl eq_refl eq_refl).
Defined.

(** C3, at a text whose top level raises [null].  Reading [error.message]
    in the [catch] block around the execution raises a TypeError, and
    [runTestsInVM] rejects with it instead of returning the report with the
    single failing entry. *)
Theorem runTestsInVM_rejects_on_null :
  src_completes (Script (Throw (Thrown VNull))) = Throws (Thrown VNull)
  /\ runTestsInVM node_env (Script (Throw (Thrown VNull))) pristine
     = Rejects (ErrorOf "Cannot read properties of null (reading 'message')") pristine
  /\ (forall rep w',
        runTestsInVM node_env (Script (Throw (Thrown VNull))) pristine
        <> Returns rep w').
Proof.
  split; [reflexivity |]. split; [reflexivity |].
  intros rep w' H. discriminate H.
Qed.

(* ------------------------------------------------------------------ *)
(** ** The registered component                                         *)
(* ------------------------------------------------------------------ *)

Lemma runTestsInVM_app (env : Env) (b : source) (w : World) :
  is_node env = true ->
  Forall quiet (tests (registry (snd (runInContext b (sandbox_of w))))) ->
  app (world_after (runTestsInVM env b w) w)
  = app (snd (runInContext b (sandbox_of w))).
Proof.
  intros N Q. unfold runTestsInVM. rewrite (is_node_gate env N).
  unfold sandbox_of in *.
  destruct (runInContext b (with_registry fresh_registry w)) as [[| e] s1];
    cbn [snd] in Q |- *.
  - pose proof (drain_keeps_app false (S (budget (tests (registry s1)))) 0 [] s1 Q) as K.
    remember (S (budget (tests (registry s1)))) as fuel.
    destruct (drain false fuel 0 [] s1) eqn:D; cbn in K |- *; [exact K | exact K |].
    exfalso. apply (drain_ends false fuel 0 [] s1); [| exact D].
    subst fuel. simpl. lia.
  - destruct (message_of e); reflexivity.
Qed.

(** A text that calls neither [registerApp] nor [cleanup] leaves the
    module's [registeredApp] as it found it: the runner itself never resets
    it. *)
Lemma runTestsInVM_keeps_app (env : Env) (b : source) (w : World) :
  src_touches_app b = false ->
  app (world_after (runTestsInVM env b w) w) = app w.
Proof.
  intros T. destruct (is_node env) eqn:N.
  - destruct (runInContext_keeps_app b (sandbox_of w) T (Forall_nil _)) as [K Q].
    rewrite (runTestsInVM_app env b w N Q). exact K.
  - unfold runTestsInVM. unfold is_node in N.
    destruct (has_process env), (has_require env); simpl in *; congruence.
Qed.

(** C9.  The [registerApp] visible in the sandbox writes the module's own
    [registeredApp]: after a bundle that registers [App] (and whose tests do
    not touch the registration) has been run in the sandbox, [App] is the
    module's registered component; it stays so across a further sandbox run
    of any text that does not itself call [registerApp] or [cleanup], and the
    host's [render()] renders it; all the while the sandbox runs answer as if
    run alone and leave the module's registry as it was. *)
Theorem registeredApp_outlives_sandbox (env : Env) (App : component) (rest : stmt)
    (B : source) (w : World) :
  is_node env = true ->
  touches_app rest = false ->
  src_touches_app B = false ->
  let w1 := world_after (runTestsInVM env (Script (RegisterApp App ;; rest)%script) w) w in
  let w2 := world_after (runTestsInVM env B w1) w1 in
  registeredApp (app w1) = Some App
  /\ registeredApp (app w2) = Some App
  /\ fst (render w1) = inr App
  /\ fst (render w2) = inr App
  /\ answer (runTestsInVM env B w1) = answer (runTestsInVM env B w)
  /\ registry w2 = registry w.
Proof.
  intros N T TB w1 w2.
  assert (A1 : registeredApp (app w1) = Some App).
  { unfold w1. rewrite runTestsInVM_app; [| exact N |].
    - simpl. rewrite exec_keeps_app by exact T. reflexivity.
    - simpl. apply exec_registers_quiet; [exact T | constructor]. }
  assert (A2 : registeredApp (app w2) = Some App).
  { unfold w2. now rewrite runTestsInVM_keeps_app. }
  split; [exact A1 |]. split; [exact A2 |].
  split; [unfold render; now rewrite A1 |].
  split; [unfold render; now rewrite A2 |].
  split; [apply runTestsInVM_answer |].
  unfold w2. rewrite runTestsInVM_keeps_registry.
  unfold w1. apply runTestsInVM_keeps_registry.
Qed.

Lemma registeredApp_outlives_sandbox_witness :
  registeredApp (app (world_after
                        (runTestsInVM node_env (Script (It "other" Skip))
                           (world_after
                              (runTestsInVM node_env
                                 (Script (RegisterApp 7 ;; It "renders" Skip)%script) pristine)
                              pristine))
                        pristine))
  = Some 7.
Proof.
  destruct (registeredApp_outlives_sandbox node_env 7 (It "renders" Skip)
              (Script (It "other" Skip)) pristine eq_refl eq_refl eq_refl)
    as (_ & H & _).
  exact H.
Defined.

(* ------------------------------------------------------------------ *)
(** ** Failure messages                                                 *)
(* ------------------------------------------------------------------ *)

Lemma report_files_verdicts (a : bool) (cases : list Test) :
  files_verdicts a cases (report (map (filed a) cases)).
Proof.
  unfold files_verdicts. cbn [results report].
  split; [apply length_map |]. split; [apply filed_case |].
  intros i t N. exists (filed a t). split; [now apply map_nth_error |].
  unfold filed, entry_for. destruct (seen a (fn t)) as [| e0].
  - split; [reflexivity |]. split; [now split | discriminate].
  - split; [reflexivity |]. split; [split; discriminate |].
    intros e E. inv E. split; [reflexivity |]. destruct e as [m | []]; reflexivity.
Qed.

(** C6, as amended.  In every report returned by [runTests], and by
    [runTestsInVM] when the execution of the text completed, the entries are,
    position by position, those of the array of cases as the loop left it:
    the cases registered when the loop started, followed by those registered
    while it ran (none when no body registers cases).  Every entry carries
    the name of its case, and every entry with [passed: false] carries the
    [message] property of what its body raised: the message string when the
    raised value has one, and nothing when it has none.  In the sandbox the
    cases are those registered by the calls of [it] in the text. *)
Theorem failing_entries_carry_thrown_message :
  (forall w rep w',
     runTests w = Returns rep w' ->
     files_verdicts true (attempted true w) rep
     /\ (exists added, attempted true w = (tests (registry w) ++ added)%list)
     /\ (static (tests (registry w)) = true -> attempted true w = tests (registry w)))
  /\ (forall env b w rep w',
        runTestsInVM env b w = Returns rep w' ->
        src_completes b = Normal ->
        let s1 := snd (runInContext b (sandbox_of w)) in
        files_verdicts false (attempted false s1) rep
        /\ (exists added, attempted false s1 = (tests (registry s1) ++ added)%list)
        /\ (static (tests (registry s1)) = true -> attempted false s1 = tests (registry s1))
        /\ Forall (declared_by (src_its b)) (attempted false s1)).
Proof.
  split.
  - intros w rep w' H.
    split; [| split].
    + unfold runTests in H. unfold attempted.
      destruct (drain true (S (budget (tests (registry w)))) 0 [] w) as [rs w1 | |] eqn:D;
        try discriminate.
      destruct (drain_returns _ _ _ _ _ _ _ D) as (R & _ & _).
      simpl in R. subst rs. inv H. cbn [world_after]. apply report_files_verdicts.
    + unfold runTests in H. unfold attempted.
      destruct (drain true (S (budget (tests (registry w)))) 0 [] w) as [rs w1 | |] eqn:D;
        try discriminate.
      now destruct (drain_returns _ _ _ _ _ _ _ D) as (_ & G & _).
    + intros HS. apply forallb_negb_Forall in HS. now apply drain_keeps_tests.
  - intros env b w rep w' H C s1.
    unfold runTestsInVM in H.
    destruct (negb (has_process env) || negb (has_require env)); [discriminate |].
    pose proof (runInContext_declared b w) as D0.
    pose proof (runInContext_completes b (sandbox_of w)) as C0.
    unfold s1. unfold sandbox_of in *.
    destruct (runInContext b (with_registry fresh_registry w)) as [c s];
      cbn [fst snd] in *.
    rewrite C in C0. subst c.
    pose proof (drain_declared false (src_its b) (S (budget (tests (registry s)))) 0 [] s
                  (src_its_nested b) D0) as D1.
    unfold attempted.
    destruct (drain false (S (budget (tests (registry s)))) 0 [] s) as [rs s2 | |] eqn:D;
      try discriminate.
    destruct (drain_returns _ _ _ _ _ _ _ D) as (R & G & _).
    simpl in R. subst rs. inv H. cbn [world_after] in *.
    split; [apply report_files_verdicts |]. split; [exact G |].
    split; [| exact D1].
    intros HS. apply forallb_negb_Forall in HS.
    pose proof (drain_keeps_tests false (S (budget (tests (registry s)))) 0 [] s HS) as K.
    now rewrite D in K.
Qed.

Lemma failing_entries_carry_thrown_message_witness :
  files_verdicts true
    (attempted true
       (registered [{| name := "asserts"; fn := Async (Throw (ErrorOf "Expected 1, got 2")) |};
                    {| name := "passes"; fn := Skip |}]))
    {| passed := false;
       results := [{| case := "asserts"; case_passed := false;
                      error := Some "Expected 1, got 2" |};
                   {| case := "passes"; case_passed := true; error := None |}] |}.
Proof.
  destruct failing_entries_carry_thrown_message as [H _].
  exact (proj1 (H (registered
                     [{| name := "asserts";
                         fn := Async (Throw (ErrorOf "Expected 1, got 2")) |};
                      {| name := "passes"; fn := Skip |}])
                  _ _ eq_refl)).
Defined.

(** C6, as stated, fails: a body that raises a string is recorded as failed
    with no error message at all, by both runners. *)
Lemma failure_without_message :
  runTests (registered [{| name := "a"; fn := Throw (Thrown (VString "boom")) |}])
  = Returns
      {| passed := false;
         results := [{| case := "a"; case_passed := false; error := None |}] |}
      (registered [])
  /\ runTestsInVM node_env (Script (It "a" (Throw (Thrown (VString "boom"))))) pristine
     = Returns
         {| passed := false;
            results := [{| case := "a"; case_passed := false; error := None |}] |}
         pristine.
Proof.
  split; reflexivity.
Qed.

(* ================================================================== *)
(** * Group names                                                       *)
(* ================================================================== *)

(** What [describe] does when its body throws: it is left by the exception
    with the group name still set, so a case registered afterwards is filed
    under the name of that group. *)
Lemma describe_throwing_body (group : string) (e : exn) (n : string) (f : stmt)
    (w : World) :
  exec (Describe group (Throw e)) w = (Throws e, set_currentDescribe group w)
  /\ exec (TryCatch (Describe group (Throw e)) Skip ;; It n f)%script w
     = (Normal, it n f (set_currentDescribe group w))
  /\ tests (registry (it n f (set_currentDescribe group w)))
     = (tests (registry w) ++ [{| name := case_name group n; fn := f |}])%list.
Proof.
  repeat split.
Qed.

(** C2, as amended.  For every group body that returns normally, after
    [describe] returns the active group name is the empty string, so a case
    registered afterwards, outside any group, is filed under its bare name. *)
Theorem describe_resets_on_return (group : string) (body : stmt) (n : string)
    (f : stmt) (w w2 : World) :
  exec body (set_currentDescribe group w) = (Normal, w2) ->
  exec (Describe group body) w = (Normal, set_currentDescribe "" w2)
  /\ currentDescribe (registry (snd (exec (Describe group body) w))) = ""
  /\ exec (Describe group body ;; It n f)%script w
     = (Normal, it n f (set_currentDescribe "" w2))
  /\ tests (registry (it n f (set_currentDescribe "" w2)))
     = (tests (registry w2) ++ [{| name := n; fn := f |}])%list.
Proof.
  intros H. simpl. unfold describe. rewrite H. repeat split.
Qed.

Lemma describe_resets_on_return_witness :
  exec (Describe "math" (It "adds" Skip) ;; It "unrelated" Skip)%script pristine
  = (Normal,
     registered [{| name := "math > adds"; fn := Skip |};
                 {| name := "unrelated"; fn := Skip |}]).
Proof.
  exact (proj1 (proj2 (proj2
           (describe_resets_on_return "math" (It "adds" Skip) "unrelated" Skip
              pristine _ eq_refl)))).
Defined.

(** C2, as stated, fails: after a group whose body throws, the active group
    name is still that of the group, and an unrelated case registered
    afterwards carries the group prefix. *)
Lemma describe_throwing_body_keeps_group :
  exec (Describe "group" (Throw (ErrorOf "boom"))) pristine
  = (Throws (ErrorOf "boom"), set_currentDescribe "group" pristine)
  /\ exec (TryCatch (Describe "group" (Throw (ErrorOf "boom"))) Skip
           ;; It "unrelated" Skip)%script pristine
     = (Normal,
        with_registry
          {| tests := [{| name := "group > unrelated"; fn := Skip |}];
             currentDescribe := "group" |} pristine).
Proof.
  split; reflexivity.
Qed.

(* ================================================================== *)
(** * [waitFor]                                                         *)
(* ================================================================== *)

Local Open Scope Z_scope.

(** What the loop has done when it is left: it made no attempt exactly when
    the deadline had passed at its first check; every attempt but a last
    successful one failed; it gives up only once the deadline has passed, and
    then raises the last failure if there is a truthy one. *)
Lemma waitFor_loop_left (callback : nat -> Attempt) (T I start : Z) (fuel : nat) :
  forall last c r c',
    waitFor_loop fuel callback T I start last c = Some (r, c') ->
    (calls c <= calls c')%nat
    /\ (calls c = calls c' <-> T <= now c - start)
    /\ (forall k, (calls c <= k)%nat -> (S k < calls c')%nat ->
                  exists e, observed (ends (callback k)) = Throws e)
    /\ (r = Normal ->
        exists k, calls c' = S k /\ (calls c <= k)%nat
                  /\ observed (ends (callback k)) = Normal)
    /\ (forall e, r = Throws e ->
          T <= now c' - start
          /\ (calls c = calls c' -> e = last_or_timeout last T)
          /\ ((calls c < calls c')%nat ->
              exists e0,
                observed (ends (callback (Nat.pred (calls c')))) = Throws e0
                /\ e = last_or_timeout (Some e0) T)).
Proof.
  induction fuel as [| fuel IH]; intros last c r c' H; [discriminate |].
  simpl in H. destruct (now c - start <? T) eqn:D.
  - apply Z.ltb_lt in D.
    destruct (observed (ends (callback (calls c)))) as [| e0] eqn:E.
    + inv H. simpl. split; [lia |]. split; [split; intros; lia |].
      split; [intros k A B; lia |].
      split; [intros _; exists (calls c); auto |].
      intros e X. discriminate X.
    + apply IH in H. simpl in H. destruct H as (L & Z0 & F & N & X).
      split; [lia |]. split; [split; intros; lia |].
      split.
      { intros k A B. destruct (Nat.eq_dec k (calls c)) as [-> | Q];
          [eauto | apply F; lia]. }
      split.
      { intros R. destruct (N R) as (k & K1 & K2 & K3). exists k.
        repeat split; [assumption | lia | assumption]. }
      intros e R. destruct (X e R) as (X1 & X2 & X3).
      split; [exact X1 |]. split; [intros; lia |].
      intros _. destruct (Nat.eq_dec (S (calls c)) (calls c')) as [Q | Q].
      * exists e0. rewrite <- Q. simpl. split; [exact E | now apply X2].
      * apply X3. lia.
  - apply Z.ltb_ge in D. inv H.
    split; [lia |]. split; [split; intros; [assumption | reflexivity] |].
    split; [intros k A B; lia |].
    split; [intros X; discriminate X |].
    intros e X. inv X. split; [exact D |]. split; [reflexivity | intros; lia].
Qed.

(** When no attempt moves the clock backwards and the interval is positive,
    the loop is left within as many rounds as the timeout has milliseconds. *)
Lemma waitFor_loop_ends (callback : nat -> Attempt) (T I start : Z) :
  (forall k, 0 <= took (callback k)) ->
  0 < I ->
  forall fuel last c,
    T - (now c - start) <= Z.of_nat fuel ->
    exists r c', waitFor_loop (S fuel) callback T I start last c = Some (r, c').
Proof.
  intros P Q. induction fuel as [| fuel IH]; intros last c B.
  - simpl. destruct (now c - start <? T) eqn:D; [apply Z.ltb_lt in D; lia |].
    eexists. eexists. reflexivity.
  - cbn [waitFor_loop]. destruct (now c - start <? T) eqn:D.
    + destruct (observed (ends (callback (calls c)))) as [| e0];
        [eexists; eexists; reflexivity |].
      apply IH. unfold sleep. simpl. specialize (P (calls c)). lia.
    + eexists. eexists. reflexivity.
Qed.

Local Close Scope Z_scope.

Lemma observed_throws (a : Attempt) (e : exn) :
  observed (ends a) = Throws e <-> fails_with a e.
Proof.
  unfold fails_with. destruct (ends a) as [e0 | [| e0] |]; simpl; split;
    try (intros [H | H]; inv H; reflexivity);
    try discriminate; intros H; inv H; auto.
Qed.

Lemma observed_normal (a : Attempt) :
  observed (ends a) = Normal <-> succeeds a.
Proof.
  unfold succeeds. destruct (ends a) as [e0 | [| e0] |]; simpl; split;
    try (intros [H | H]; inv H; reflexivity);
    try discriminate; intros H; auto.
Qed.

(** C5, as amended.  When [waitFor] is left: the callback was invoked at
    least once exactly when the timeout is positive; every attempt before the
    last one failed, and an attempt that is taken for a success ends the loop
    at once; the loop gives up only when the elapsed time has reached the
    timeout, however many attempts that took; and what it then raises is the
    generic timeout error when no attempt was made, and the failure of the
    last attempt when that failure is a truthy value. *)
Theorem waitFor_contract (fuel : nat) (callback : nat -> Attempt) (options : Options)
    (c : Clock) (r : completion) (c' : Clock) :
  waitFor fuel callback options c = Some (r, c') ->
  (calls c < calls c' <-> (0 < timeout_of options)%Z)
  /\ (forall k, calls c <= k -> S k < calls c' ->
                exists e, fails_with (callback k) e)
  /\ (r = Normal ->
      exists k, calls c' = S k /\ calls c <= k /\ succeeds (callback k))
  /\ (forall e, r = Throws e ->
        (timeout_of options <= now c' - now c)%Z
        /\ (calls c = calls c' -> prints_in_decimal (timeout_of options) ->
            e = ErrorOf ("waitFor timeout after "
                           ++ Z_to_string (timeout_of options) ++ "ms"))
        /\ (calls c < calls c' ->
            exists e0,
              fails_with (callback (Nat.pred (calls c'))) e0
              /\ (exn_truthy e0 = true -> e = e0))).
Proof.
  unfold waitFor. intros H.
  apply waitFor_loop_left in H. destruct H as (L & Z0 & F & N & X).
  split; [lia |].
  split.
  { intros k A B. destruct (F k A B) as [e E]. exists e. now apply observed_throws. }
  split.
  { intros R. destruct (N R) as (k & K1 & K2 & K3). exists k.
    split; [exact K1 |]. split; [exact K2 |]. now apply observed_normal. }
  intros e R. destruct (X e R) as (X1 & X2 & X3).
  split; [exact X1 |]. split; [intros Q _; exact (X2 Q) |].
  intros Q. destruct (X3 Q) as (e0 & E0 & E). exists e0.
  split; [now apply observed_throws |].
  intros Y. simpl in E. now rewrite Y in E.
Qed.

Lemma waitFor_contract_witness :
  waitFor 5 (rejecting (ErrorOf "Expected 5, got 4") 20)
    {| timeout := Some 100%Z; interval := Some 10%Z |} {| now := 0; calls := 0 |}
  = Some (Throws (ErrorOf "Expected 5, got 4"), {| now := 120; calls := 4 |})
  /\ (0 < 4 <-> (0 < 100)%Z).
Proof.
  split; [reflexivity |].
  exact (proj1 (waitFor_contract 5 (rejecting (ErrorOf "Expected 5, got 4") 20)
                  {| timeout := Some 100%Z; interval := Some 10%Z |}
                  {| now := 0; calls := 0 |} _ _ eq_refl)).
Defined.

(** C5, as stated, fails: with [timeout: 0] the callback is never invoked and
    the generic timeout error is raised. *)
Lemma waitFor_zero_timeout_makes_no_attempt :
  waitFor 5 (failing (ErrorOf "Expected 5, got 4") 20)
    {| timeout := Some 0%Z; interval := None |} {| now := 1000; calls := 0 |}
  = Some (Throws (ErrorOf "waitFor timeout after 0ms"), {| now := 1000; calls := 0 |}).
Proof. reflexivity. Qed.

(** With a clock that moves on every attempt and a positive interval,
    [waitFor] is left after at most as many rounds as the timeout has
    milliseconds, however late the timers fire. *)
Theorem waitFor_ends (callback : nat -> Attempt) (options : Options) (c : Clock) :
  (forall k, (0 <= took (callback k))%Z) ->
  (0 < interval_of options)%Z ->
  exists r c',
    waitFor (S (Z.to_nat (timeout_of options))) callback options c = Some (r, c').
Proof.
  intros P Q. unfold waitFor. apply waitFor_loop_ends; [exact P | exact Q |]. lia.
Qed.

Lemma waitFor_loop_round (fuel : nat) (callback : nat -> Attempt)
    (T I start : Z) (last : option exn) (c : Clock) :
  waitFor_loop (S fuel) callback T I start last c
  = if (now c - start <? T)%Z then
      match observed (ends (callback (calls c))) with
      | Normal => Some (Normal, {| now := now c + took (callback (calls c)); calls := S (calls c) |})
      | Throws e =>
          waitFor_loop fuel callback T I start (Some e)
            (sleep I (late (callback (calls c)))
               {| now := now c + took (callback (calls c)); calls := S (calls c) |})
      end
    else Some (Throws (last_or_timeout last T), c).
Proof. reflexivity. Qed.

(** No number of invocations bounds the loop: a callback that fails at once,
    polled with sleeps of one millisecond, is invoked once per millisecond of
    the timeout. *)
Theorem waitFor_attempts_unbounded (n : nat) :
  exists r,
    waitFor (S n) (hurried (ErrorOf "not yet"))
      {| timeout := Some (Z.of_nat n); interval := Some 0%Z |} {| now := 0; calls := 0 |}
    = Some (r, {| now := Z.of_nat n; calls := n |}).
Proof.
  unfold waitFor. simpl.
  assert (G : forall m k last, k + m = n ->
    exists r,
      waitFor_loop (S m) (hurried (ErrorOf "not yet")) (Z.of_nat n) 0 0 last
        {| now := Z.of_nat k; calls := k |}
      = Some (r, {| now := Z.of_nat n; calls := n |})).
  { induction m as [| m IH]; intros k last E.
    - simpl. replace k with n by lia.
      destruct (Z.of_nat n - 0 <? Z.of_nat n)%Z eqn:D; [apply Z.ltb_lt in D; lia |].
      eexists. reflexivity.
    - rewrite waitFor_loop_round. cbn [now calls hurried ends took late observed].
      destruct (Z.of_nat k - 0 <? Z.of_nat n)%Z eqn:D; [| apply Z.ltb_ge in D; lia].
      unfold sleep. cbn [now calls].
      replace (Z.of_nat k + 0 + Z.max 0 0 + Z.of_nat 1)%Z with (Z.of_nat (S k)) by lia.
      apply IH. lia. }
  apply (G n 0 None). reflexivity.
Qed.

(* ================================================================== *)
(** * Problem validation                                                *)
(* ================================================================== *)

Lemma runTestsWithCode_total (root : node) (env : Env) (compile : string -> source)
    (problemPath : path) (f : folder) (w : World) :
  answer (runTestsWithCode root env compile problemPath f w) <> None.
Proof.
  unfold runTestsWithCode.
  destruct (loadCodeFiles root problemPath f) as [e | codeFiles]; [discriminate |].
  destruct (negb (existsSync root (join problemPath "test.ts"))); [discriminate |].
  destruct (readFileSync root (join problemPath "test.ts")) as [e | testCode];
    [discriminate |].
  pose proof (runTestsInVM_total env
                (compile (bundleCodeWithTests codeFiles testCode)) w) as T.
  destruct (runTestsInVM env (compile (bundleCodeWithTests codeFiles testCode)) w)
    as [r w1 | err w1 |]; simpl in *; try discriminate; [| congruence].
  destruct (message_of err); discriminate.
Qed.

Lemma validateProblemTests_total (root : node) (env : Env) (compile : string -> source)
    (problemPath : path) (w : World) :
  answer (validateProblemTests root env compile problemPath w) <> None.
Proof.
  unfold validateProblemTests.
  destruct (negb (existsSync root (join problemPath "solution"))); [discriminate |].
  pose proof (runTestsWithCode_total root env compile problemPath solution w) as T1.
  destruct (runTestsWithCode root env compile problemPath solution w)
    as [r1 w1 | e1 w1 |]; simpl in *; try discriminate; [| congruence].
  pose proof (runTestsWithCode_total root env compile problemPath src w1) as T2.
  destruct (runTestsWithCode root env compile problemPath src w1)
    as [r2 w2 | e2 w2 |]; simpl in *; try discriminate. congruence.
Qed.

(** C10.  For a problem without a [solution/] folder [validateProblemTests]
    returns [valid: true] with the one-entry error list
    ["No solution/ folder - skipping test validation"] and neither
    [solutionResult] nor [srcResult], without running anything; for a problem
    with a [solution/] folder every result it returns has both run results
    and has [valid: true] exactly when its error list is empty. *)
Theorem validateProblemTests_without_solution (root : node) (env : Env)
    (compile : string -> source) (problemPath : path) (w : World) :
  (existsSync root (join problemPath "solution") = false ->
   validateProblemTests root env compile problemPath w
   = Returns
       {| valid := true; solutionResult := None; srcResult := None;
          errors := ["No solution/ folder - skipping test validation"] |} w)
  /\ (existsSync root (join problemPath "solution") = true ->
      forall v w',
        validateProblemTests root env compile problemPath w = Returns v w' ->
        (valid v = true <-> errors v = [])
        /\ solutionResult v <> None
        /\ srcResult v <> None).
Proof.
  unfold validateProblemTests. split; intros X; rewrite X; [reflexivity |].
  intros v w' H. simpl in H.
  destruct (runTestsWithCode root env compile problemPath solution w)
    as [r1 w1 | e1 w1 |]; try discriminate.
  destruct (runTestsWithCode root env compile problemPath src w1)
    as [r2 w2 | e2 w2 |]; try discriminate.
  inv H. simpl. split; [| split; discriminate].
  match goal with |- (Nat.eqb (length ?l) 0 = true <-> _) => destruct l end;
    simpl; split; intros; congruence.
Qed.

Lemma validateProblemTests_without_solution_witness :
  existsSync no_solution_tree ["counter"; "solution"] = false
  /\ validateProblemTests no_solution_tree node_env (fun _ => Script Skip)
       ["counter"] pristine
     = Returns
         {| valid := true; solutionResult := None; srcResult := None;
            errors := ["No solution/ folder - skipping test validation"] |}
         pristine.
Proof.
  split; [reflexivity |].
  exact (proj1 (validateProblemTests_without_solution no_solution_tree node_env
                  (fun _ => Script Skip) ["counter"] pristine) eq_refl).
Defined.


(* ================================================================== *)
(** * Further properties: comparators                                   *)
(* ================================================================== *)

Lemma SFcompare_antisym (x y : spec_float) :
  SFcompare y x = option_map CompOpp (SFcompare x y).
Proof.
  destruct x as [s1 | s1 | | s1 m1 e1], y as [s2 | s2 | | s2 m2 e2]; simpl;
    try reflexivity; try (destruct s1; reflexivity); try (destruct s2; reflexivity);
    try (destruct s1, s2; reflexivity).
  destruct s1, s2; try reflexivity;
    rewrite (Z.compare_antisym e1 e2); destruct (e1 ?= e2)%Z; simpl; try reflexivity;
    rewrite (Pos.compare_cont_antisym m1 m2 Eq); simpl;
    try rewrite CompOpp_involutive; reflexivity.
Qed.

Lemma SFcompare_none (x y : spec_float) :
  SFcompare x y = None -> x = S754_nan \/ y = S754_nan.
Proof.
  destruct x, y; simpl; auto; discriminate.
Qed.

Lemma SFleb_neither (x y : spec_float) :
  SFleb x y = false /\ SFleb y x = false <-> x = S754_nan \/ y = S754_nan.
Proof.
  split.
  - unfold SFleb. rewrite (SFcompare_antisym x y).
    destruct (SFcompare x y) as [c |] eqn:E.
    + destruct c; simpl; intros [A B]; discriminate.
    + intros _. now apply SFcompare_none.
  - intros [-> | ->]; [destruct y | destruct x]; split; reflexivity.
Qed.

Lemma SFleb_both (x y : spec_float) : SFleb x y && SFleb y x = SFeqb x y.
Proof.
  unfold SFleb, SFeqb. rewrite (SFcompare_antisym x y).
  destruct (SFcompare x y) as [[] |]; reflexivity.
Qed.

(** For every value exactly one of [toBeTruthy] and [toBeFalsy] passes:
    [toBeTruthy] on the truthy values, [toBeFalsy] on the others. *)
Theorem truthiness_comparators_complement (ToString : value -> string) (actual : value) :
  (toBeTruthy ToString actual = Normal <-> truthy actual = true)
  /\ (toBeFalsy ToString actual = Normal <-> truthy actual = false)
  /\ (toBeTruthy ToString actual = Normal <-> toBeFalsy ToString actual <> Normal).
Proof.
  unfold toBeTruthy, toBeFalsy. destruct (truthy actual); simpl;
    repeat split; intros; try discriminate; try reflexivity; try congruence.
Qed.

(** [toBeGreaterThan(n)] passes exactly when [actual <= n] is false and
    [toBeLessThan(n)] exactly when [actual >= n] is false.  So both pass
    exactly when [actual] converts to [NaN] or [n] is [NaN], and both raise
    exactly when the two numbers are equal. *)
Theorem ordering_comparators (ToString : value -> string)
    (ToNumber : value -> spec_float) (actual : value) (n : spec_float) :
  (toBeGreaterThan ToString ToNumber actual n = Normal
   <-> SFleb (ToNumber actual) n = false)
  /\ (toBeLessThan ToString ToNumber actual n = Normal
      <-> SFleb n (ToNumber actual) = false)
  /\ (toBeGreaterThan ToString ToNumber actual n = Normal
      /\ toBeLessThan ToString ToNumber actual n = Normal
      <-> ToNumber actual = S754_nan \/ n = S754_nan)
  /\ (toBeGreaterThan ToString ToNumber actual n <> Normal
      /\ toBeLessThan ToString ToNumber actual n <> Normal
      <-> SFeqb (ToNumber actual) n = true).
Proof.
  unfold toBeGreaterThan, toBeLessThan.
  rewrite <- SFleb_neither, <- SFleb_both.
  destruct (SFleb (ToNumber actual) n), (SFleb n (ToNumber actual)); simpl;
    repeat split; intros; try discriminate; try reflexivity;
    repeat match goal with H : _ /\ _ |- _ => destruct H end;
    try discriminate; try congruence.
Qed.

(* ================================================================== *)
(** * Further properties: registration, rendering                       *)
(* ================================================================== *)

(** Running a script never removes or reorders registered cases: the array
    after it is the array before it followed by the cases the script
    registered, at most one per call of [it] it contains. *)
Theorem registration_only_appends (s : stmt) (w : World) :
  exists added,
    tests (registry (snd (exec s w))) = (tests (registry w) ++ added)%list
    /\ length added <= cost s.
Proof.
  destruct (exec s w) as [c w'] eqn:E.
  destruct (exec_appends s w c w' E) as (added & T & B).
  exists added. split; [exact T |].
  pose proof (budget_ge_length added). lia.
Qed.

(** Group names do not nest.  A case registered in a group inside a group
    carries the name of the inner group alone, and a case registered in the
    outer group after the inner one carries no group name at all. *)
Theorem nested_describe_loses_outer_group (outer inner m n : string) (g f : stmt)
    (w : World) :
  exec (Describe outer (Describe inner (It m g) ;; It n f))%script w
  = (Normal,
     with_registry
       {| tests := (tests (registry w)
                      ++ [{| name := case_name inner m; fn := g |};
                          {| name := n; fn := f |}])%list;
          currentDescribe := "" |} w).
Proof.
  simpl. unfold describe, it, set_currentDescribe, with_registry. simpl.
  now rewrite <- app_assoc.
Qed.

Lemma render_times_registered (n : nat) : forall (App : component) (w : World),
  registeredApp (app w) = Some App ->
  registeredApp (app (render_times n w)) = Some App
  /\ test_roots (app (render_times n w)) = n + test_roots (app w)
  /\ registry (render_times n w) = registry w.
Proof.
  induction n as [| n IH]; intros App w R; simpl; [now repeat split |].
  unfold render at 1 2 3. rewrite R. simpl.
  destruct (IH App (with_app {| registeredApp := Some App;
                                test_roots := S (test_roots (app w)) |} w) eq_refl)
    as (A & B & C).
  rewrite A, B, C. simpl. repeat split. lia.
Qed.

(** In a page, [cleanup()] forgets the registered component and removes one
    container only: after [registerApp(App)] and [n] calls of [render()], a
    single [cleanup()] leaves [n - 1] of the new containers attached, and the
    next [render()] fails for want of a registered component, in whatever
    state [cleanup()] was called.  Where there is no [document], [cleanup()]
    raises a ReferenceError and resets nothing: the component stays
    registered. *)
Theorem cleanup_removes_one_container (App : component) (n : nat) (w : World) :
  fst (render (registerApp App w)) = inr App
  /\ test_roots (app (render_times n (registerApp App w))) = n + test_roots (app w)
  /\ fst (cleanup true (render_times n (registerApp App w))) = Normal
  /\ test_roots (app (snd (cleanup true (render_times n (registerApp App w)))))
     = Nat.pred (n + test_roots (app w))
  /\ render (snd (cleanup true w))
     = (inl (ErrorOf "No App registered. Call registerApp(App) first."),
        snd (cleanup true w))
  /\ cleanup false (render_times n (registerApp App w))
     = (Throws (ErrorOf "document is not defined"), render_times n (registerApp App w))
  /\ registeredApp (app (snd (cleanup false (render_times n (registerApp App w)))))
     = Some App.
Proof.
  destruct (render_times_registered n App (registerApp App w) eq_refl) as (A & B & C).
  split; [reflexivity |]. split; [exact B |].
  split; [reflexivity |].
  split; [simpl; now rewrite B |].
  split; [reflexivity |].
  split; [reflexivity |].
  exact A.
Qed.

(* ================================================================== *)
(** * Further properties: [waitFor]                                     *)
(* ================================================================== *)

Lemma waitFor_ends_witness :
  exists r c',
    waitFor 101 (failing (ErrorOf "not yet") 0)
      {| timeout := Some 100%Z; interval := Some 10%Z |} {| now := 0; calls := 0 |}
    = Some (r, c').
Proof.
  apply (waitFor_ends (failing (ErrorOf "not yet") 0)
           {| timeout := Some 100%Z; interval := Some 10%Z |} {| now := 0; calls := 0 |}).
  - intros k. unfold failing. simpl. lia.
  - unfold interval_of. simpl. lia.
Defined.

Local Open Scope Z_scope.

Lemma waitFor_loop_overrun (callback : nat -> Attempt) (T I start d l : Z) :
  (forall k, took (callback k) <= d) ->
  (forall k, Z.of_nat (late (callback k)) <= l) ->
  forall fuel last c r c',
    waitFor_loop fuel callback T I start last c = Some (r, c') ->
    now c - start <= Z.max 0 (T - 1 + d + Z.max 0 I + l) ->
    now c' - start <= Z.max 0 (T - 1 + d + Z.max 0 I + l).
Proof.
  intros D DL. induction fuel as [| fuel IH]; intros last c r c' H B; [discriminate |].
  rewrite waitFor_loop_round in H.
  destruct (now c - start <? T) eqn:E.
  - apply Z.ltb_lt in E. specialize (D (calls c)). specialize (DL (calls c)).
    destruct (observed (ends (callback (calls c)))) as [| e0].
    + inv H. simpl. lia.
    + apply IH in H; [exact H |]. unfold sleep. simpl. lia.
  - now inv H.
Qed.


Local Close Scope Z_scope.

(** [waitFor] overruns its deadline by less than one attempt and one sleep:
    when no attempt takes more than [d] milliseconds and no timer fires more
    than [l] milliseconds late, it is left no later than
    [timeout - 1 + d + interval + l] milliseconds after it was entered. *)
Theorem waitFor_overrun (fuel : nat) (callback : nat -> Attempt) (options : Options)
    (d l : Z) (c : Clock) (r : completion) (c' : Clock) :
  (forall k, (took (callback k) <= d)%Z) ->
  (forall k, (Z.of_nat (late (callback k)) <= l)%Z) ->
  waitFor fuel callback options c = Some (r, c') ->
  (now c' - now c
   <= Z.max 0 (timeout_of options - 1 + d + Z.max 0 (interval_of options) + l))%Z.
Proof.
  intros D DL H. unfold waitFor in H.
  apply (waitFor_loop_overrun _ _ _ _ d l D DL) in H; [exact H | lia].
Qed.

Lemma waitFor_overrun_witness :
  (120 - 0 <= Z.max 0 (100 - 1 + 20 + Z.max 0 10 + 0))%Z.
Proof.
  apply (waitFor_overrun 5 (failing (ErrorOf "Expected 5, got 4") 20)
           {| timeout := Some 100%Z; interval := Some 10%Z |} 20 0
           {| now := 0; calls := 0 |}
           (Throws (ErrorOf "Expected 5, got 4")) {| now := 120; calls := 4 |}).
  - intros k. unfold failing. simpl. lia.
  - intros k. unfold failing. simpl. lia.
  - reflexivity.
Defined.



(** What counts as a success is what the loop can see.  A callback that is
    an [async] function of a sandbox returns no instance of the host's
    [Promise]: whatever its promise settles to, [waitFor] returns after the
    first call, when the timeout is positive. *)
Theorem waitFor_takes_foreign_promise_for_success (fuel : nat) (ms : Z)
    (options : Options) (c : Clock) :
  (0 < timeout_of options)%Z ->
  waitFor (S fuel) (foreign_async ms) options c
  = Some (Normal, {| now := now c + ms; calls := S (calls c) |}).
Proof.
  intros T. unfold waitFor. rewrite waitFor_loop_round.
  replace (now c - now c <? timeout_of options)%Z with true
    by (symmetry; apply Z.ltb_lt; lia).
  reflexivity.
Qed.

Lemma waitFor_takes_foreign_promise_for_success_witness :
  waitFor 1 (foreign_async 3) no_options {| now := 0; calls := 0 |}
  = Some (Normal, {| now := 3; calls := 1 |}).
Proof.
  apply (waitFor_takes_foreign_promise_for_success 0 3 no_options {| now := 0; calls := 0 |}).
  unfold timeout_of. simpl. lia.
Defined.

(** A last failure that is a falsy value is not what [waitFor] raises: the
    generic timeout error takes its place. *)
Theorem waitFor_falsy_failure (fuel : nat) (callback : nat -> Attempt)
    (options : Options) (c : Clock) (e e0 : exn) (c' : Clock) :
  waitFor fuel callback options c = Some (Throws e, c') ->
  calls c < calls c' ->
  fails_with (callback (Nat.pred (calls c'))) e0 ->
  exn_truthy e0 = false ->
  prints_in_decimal (timeout_of options) ->
  e = ErrorOf ("waitFor timeout after " ++ Z_to_string (timeout_of options) ++ "ms").
Proof.
  unfold waitFor. intros H L E F _. apply observed_throws in E.
  apply waitFor_loop_left in H. destruct H as (_ & _ & _ & _ & X).
  destruct (X e eq_refl) as (_ & _ & X3). destruct (X3 L) as (e1 & E1 & R).
  rewrite E in E1. injection E1 as E1. subst e1. simpl in R. now rewrite F in R.
Qed.

Lemma waitFor_falsy_failure_witness :
  waitFor 5 (failing (Thrown VUndefined) 20)
    {| timeout := Some 30%Z; interval := Some 10%Z |} {| now := 0; calls := 0 |}
  = Some (Throws (ErrorOf "waitFor timeout after 30ms"), {| now := 30; calls := 1 |})
  /\ ErrorOf "waitFor timeout after 30ms"
     = ErrorOf ("waitFor timeout after "
                  ++ Z_to_string (timeout_of {| timeout := Some 30%Z; interval := Some 10%Z |})
                  ++ "ms").
Proof.
  split; [reflexivity |].
  apply (waitFor_falsy_failure 5 (failing (Thrown VUndefined) 20)
           {| timeout := Some 30%Z; interval := Some 10%Z |} {| now := 0; calls := 0 |}
           _ (Thrown VUndefined) {| now := 30; calls := 1 |}).
  - reflexivity.
  - simpl. lia.
  - now left.
  - reflexivity.
  - unfold prints_in_decimal, timeout_of. simpl. lia.
Defined.

(* ================================================================== *)
(** * Further properties: the sandbox runner                            *)
(* ================================================================== *)

(** A case whose body is an [async] function of the text is reported as
    passed by the sandbox runner whatever the function raises, because its
    promise is no instance of the host's [Promise] and is not awaited; the
    local runner awaits it and reports the failure. *)
Theorem sandbox_passes_failing_async_case (env : Env) (n : string) (body : stmt)
    (e : exn) (w : World) :
  is_node env = true ->
  registers body = false ->
  completes body = Throws e ->
  (exists w',
     runTestsInVM env (Script (It n (Async body))) w
     = Returns {| passed := true;
                  results := [{| case := n; case_passed := true; error := None |}] |} w')
  /\ forall m,
       e = ErrorOf m ->
       exists w',
         runTests (registered [{| name := n; fn := Async body |}])
         = Returns {| passed := false;
                      results := [{| case := n; case_passed := false; error := Some m |}] |}
             w'.
Proof.
  intros N R C. split.
  - unfold runTestsInVM. rewrite (is_node_gate env N).
    cbn [runInContext exec].
    set (s1 := it n (Async body) (with_registry fresh_registry w)).
    assert (T : tests (registry s1) = [{| name := n; fn := Async body |}]) by reflexivity.
    destruct (drain_static false (S (budget (tests (registry s1)))) 0 [] s1) as (w' & D & _).
    + rewrite T. constructor; [exact R | constructor].
    + rewrite T. constructor; [reflexivity | constructor].
    + rewrite T. rewrite budget_cons. simpl. lia.
    + rewrite D. rewrite T. eexists. reflexivity.
  - intros m ->. unfold runTests.
    set (s1 := registered [{| name := n; fn := Async body |}]).
    assert (T : tests (registry s1) = [{| name := n; fn := Async body |}]) by reflexivity.
    destruct (drain_static true (S (budget (tests (registry s1)))) 0 [] s1) as (w' & D & _).
    + rewrite T. constructor; [exact R | constructor].
    + rewrite T. constructor; [| constructor]. cbn [fn seen settles]. now rewrite C.
    + rewrite T. rewrite budget_cons. simpl. lia.
    + rewrite D. rewrite T. unfold filed, seen, settles. cbn [skipn map List.app fn]. rewrite C.
      eexists. reflexivity.
Qed.

Lemma sandbox_passes_failing_async_case_witness :
  exists w',
    runTestsInVM node_env
      (Script (It "counts" (Async (Throw (ErrorOf "Expected 1, got 0"))))) pristine
    = Returns {| passed := true;
                 results := [{| case := "counts"; case_passed := true; error := None |}] |}
        w'.
Proof.
  exact (proj1 (sandbox_passes_failing_async_case node_env "counts"
                  (Throw (ErrorOf "Expected 1, got 0")) (ErrorOf "Expected 1, got 0")
                  pristine eq_refl eq_refl eq_refl)).
Defined.

(* ================================================================== *)
(** * Further properties: listing and loading files                     *)
(* ================================================================== *)

Lemma node_induction (P : node -> Prop) :
  (forall entry content, P (File entry content)) ->
  (forall entry entries, Forall P entries -> P (Dir entry entries)) ->
  forall n, P n.
Proof.
  intros HF HD. fix IH 1. intros [entry content | entry entries].
  - apply HF.
  - apply HD. induction entries as [| child rest IHrest]; constructor.
    + apply IH.
    + exact IHrest.
Qed.

Lemma includes_In (l : list string) (file : string) :
  includes l file = true <-> In file l.
Proof.
  unfold includes. rewrite existsb_exists. split.
  - intros (x & I & E). apply String.eqb_eq in E. now subst.
  - intros I. exists file. split; [exact I | apply String.eqb_refl].
Qed.

Lemma find_entry_some (seg : string) (entries : list node) (child : node) :
  find_entry seg entries = Some child ->
  In child entries /\ entry_name child = seg.
Proof.
  induction entries as [| n rest IH]; simpl; [discriminate |].
  destruct (String.eqb (entry_name n) seg) eqn:E.
  - intros H. inv H. apply String.eqb_eq in E. auto.
  - intros H. destruct (IH H). auto.
Qed.

Lemma find_entry_distinct (entries : list node) (child : node) :
  distinct_names (map entry_name entries) = true ->
  In child entries ->
  find_entry (entry_name child) entries = Some child.
Proof.
  induction entries as [| n rest IH]; simpl; [contradiction |].
  intros D I. apply andb_true_iff in D as [D1 D2].
  destruct I as [-> | I]; [now rewrite String.eqb_refl |].
  destruct (String.eqb (entry_name n) (entry_name child)) eqn:E; [| now apply IH].
  apply String.eqb_eq in E. exfalso.
  assert (X : includes (map entry_name rest) (entry_name n) = true).
  { apply includes_In. rewrite E. now apply in_map. }
  rewrite X in D1. discriminate D1.
Qed.

Lemma lookup_app (p q : path) : forall n,
  lookup (p ++ q)%list n
  = match lookup p n with
    | Some m => lookup q m
    | None => None
    end.
Proof.
  induction p as [| seg p IH]; intros n; simpl; [reflexivity |].
  destruct n as [entry content | entry entries]; [reflexivity |].
  destruct (find_entry seg entries); [apply IH | reflexivity].
Qed.

Lemma lookup_well_formed (p : path) : forall n m,
  well_formed n = true -> lookup p n = Some m -> well_formed m = true.
Proof.
  induction p as [| seg p IH]; intros n m W H; simpl in H; [now inv H |].
  destruct n as [entry content | entry entries]; [discriminate |].
  destruct (find_entry seg entries) as [child |] eqn:F; [| discriminate].
  simpl in W. apply andb_true_iff in W as [_ W].
  rewrite forallb_forall in W. apply (IH child); [| exact H].
  apply W. now apply find_entry_some in F.
Qed.

(** The walk lists exactly the paths that lead to a file. *)
Lemma walk_lists_files (n : node) : forall rel p,
  well_formed n = true ->
  In p (walk rel n)
  <-> exists q, p = (rel ++ entry_name n :: q)%list
                /\ exists entry content, lookup q n = Some (File entry content).
Proof.
  induction n as [entry content | entry entries IH] using node_induction;
    intros rel p W; simpl.
  - split.
    + intros [<- | []]. exists []. split; [reflexivity |]. now exists entry, content.
    + intros (q & -> & e' & c' & L). destruct q; [now left | discriminate L].
  - simpl in W. apply andb_true_iff in W as [D W]. rewrite forallb_forall in W.
    rewrite in_flat_map. rewrite Forall_forall in IH. split.
    + intros (child & I & Ip).
      apply (IH child I) in Ip; [| now apply W].
      destruct Ip as (q & -> & L).
      exists (entry_name child :: q). unfold join. rewrite <- app_assoc. simpl.
      split; [reflexivity |]. now rewrite (find_entry_distinct _ _ D I).
    + intros (q & -> & e' & c' & L). destruct q as [| seg q]; [discriminate L |].
      simpl in L. destruct (find_entry seg entries) as [child |] eqn:F; [| discriminate L].
      apply find_entry_some in F as [I <-]. exists child. split; [exact I |].
      apply (IH child I); [now apply W |].
      exists q. unfold join. rewrite <- app_assoc. simpl.
      split; [reflexivity |]. now exists e', c'.
Qed.

Lemma listFilesRecursive_files_only (root : node) (dir : path) (listed : list path) :
  well_formed root = true ->
  listFilesRecursive root dir = inr listed ->
  forall rel, In rel listed <-> is_file root (dir ++ rel)%list.
Proof.
  intros W H. unfold listFilesRecursive in *.
  destruct (lookup dir root) as [[entry content | entry entries] |] eqn:L;
    try discriminate.
  - inv H. intros rel. unfold is_file.
    rewrite lookup_app, L.
    pose proof (lookup_well_formed _ _ _ W L) as Wd.
    simpl in Wd. apply andb_true_iff in Wd as [D Wd]. rewrite forallb_forall in Wd.
    rewrite in_flat_map. split.
    + intros (child & I & Ip).
      apply walk_lists_files in Ip; [| now apply Wd].
      destruct Ip as (q & -> & e' & c' & F). simpl.
      rewrite (find_entry_distinct _ _ D I). now exists e', c'.
    + intros (e' & c' & F). destruct rel as [| seg q]; [discriminate F |].
      simpl in F. destruct (find_entry seg entries) as [child |] eqn:G; [| discriminate F].
      apply find_entry_some in G as [I <-]. exists child. split; [exact I |].
      apply walk_lists_files; [now apply Wd |]. exists q. split; [reflexivity |].
      now exists e', c'.
  - inv H. intros rel. unfold is_file.
    rewrite lookup_app, L. split; [contradiction |]. intros (e' & c' & F). discriminate F.
Qed.

(** In a tree whose directories hold no two entries of one name,
    [listFilesRecursive(dir)], when it returns, lists exactly the relative
    paths that lead from [dir] to a file, at any depth; for a missing [dir]
    that is the empty list. *)
Theorem listFilesRecursive_lists_files (root : node) (dir : path)
    (listed : list path) :
  well_formed root = true ->
  listFilesRecursive root dir = inr listed ->
  (forall rel, In rel listed <-> is_file root (dir ++ rel)%list)
  /\ (existsSync root dir = false -> listed = []).
Proof.
  intros W H. split; [now apply listFilesRecursive_files_only |].
  unfold listFilesRecursive, existsSync in *.
  destruct (lookup dir root) as [[entry content | entry entries] |];
    try discriminate. intros _. now inv H.
Qed.

Lemma listFilesRecursive_lists_files_witness :
  In ["lib"; "util.ts"] [["App.tsx"]; ["lib"; "util.ts"]]
  <-> is_file counter_tree (["counter"; "src"] ++ ["lib"; "util.ts"])%list.
Proof.
  exact (proj1 (listFilesRecursive_lists_files counter_tree ["counter"; "src"]
                  [["App.tsx"]; ["lib"; "util.ts"]] eq_refl eq_refl)
           ["lib"; "util.ts"]).
Defined.

Lemma set_own_keys (k v : string) (fs : files) (x : string) :
  In x (map fst (set_own k v fs)) <-> x = k \/ In x (map fst fs).
Proof.
  induction fs as [| [k' v'] rest IH]; simpl.
  - split; intros [H | H]; auto; try contradiction.
  - destruct (String.eqb k' k) eqn:E; simpl.
    + apply String.eqb_eq in E. subst k'. intuition (subst; auto).
    + rewrite IH. intuition (subst; auto).
Qed.

Lemma set_own_distinct (k v : string) (fs : files) :
  NoDup (map fst fs) -> NoDup (map fst (set_own k v fs)).
Proof.
  induction fs as [| [k' v'] rest IH]; simpl; intros N.
  - constructor; [intros [] | constructor].
  - inversion N as [| ? ? X N']; subst.
    destruct (String.eqb k' k) eqn:E; simpl.
    + apply String.eqb_eq in E. subst k'. now constructor.
    + constructor; [| now apply IH].
      rewrite set_own_keys. intros [-> | I]; [| contradiction].
      now rewrite String.eqb_refl in E.
Qed.

Lemma set_own_entries (k v : string) (fs : files) (k' v' : string) :
  In (k', v') (set_own k v fs) -> (k', v') = (k, v) \/ In (k', v') fs.
Proof.
  induction fs as [| [k0 v0] rest IH]; simpl.
  - intros [H | []]. now left.
  - destruct (String.eqb k0 k); simpl; intros [H | H]; auto.
    destruct (IH H); auto.
Qed.

Lemma assign_keys (k v : string) (fs : files) (x : string) :
  In x (map fst (assign k v fs))
  <-> (x = k /\ k <> "__proto__") \/ In x (map fst fs).
Proof.
  unfold assign. destruct (String.eqb k "__proto__") eqn:E.
  - apply String.eqb_eq in E. split; [now right |]. intros [[_ H] | H]; [contradiction | exact H].
  - apply String.eqb_neq in E. rewrite set_own_keys. intuition.
Qed.

Lemma assign_distinct (k v : string) (fs : files) :
  NoDup (map fst fs) -> NoDup (map fst (assign k v fs)).
Proof.
  unfold assign. destruct (String.eqb k "__proto__"); [auto | apply set_own_distinct].
Qed.

Lemma assign_entries (k v : string) (fs : files) (k' v' : string) :
  In (k', v') (assign k v fs) -> (k', v') = (k, v) \/ In (k', v') fs.
Proof.
  unfold assign. destruct (String.eqb k "__proto__"); [auto | apply set_own_entries].
Qed.

Lemma read_all_reads (root : node) (folderPath : path) (filePaths : list path) :
  forall acc,
    (forall rel, In rel filePaths -> is_file root (folderPath ++ rel)%list) ->
    NoDup (map fst acc) ->
    exists fs,
      read_all root folderPath filePaths acc = inr fs
      /\ NoDup (map fst fs)
      /\ (forall k v, In (k, v) fs ->
            In (k, v) acc
            \/ exists rel entry,
                 In rel filePaths /\ k = path_string rel
                 /\ lookup (folderPath ++ rel)%list root = Some (File entry v))
      /\ (forall k, In k (map fst acc)
                    \/ (In k (map path_string filePaths) /\ k <> "__proto__") ->
                    In k (map fst fs))
      /\ (In "__proto__" (map fst fs) -> In "__proto__" (map fst acc)).
Proof.
  induction filePaths as [| rel rest IH]; intros acc F N; simpl.
  - exists acc. repeat split; auto. intros k [H | [[] _]]. exact H.
  - destruct (F rel (or_introl eq_refl)) as (entry & content & L).
    unfold readFileSync, join_path. rewrite L.
    destruct (IH (assign (path_string rel) content acc)) as (fs & R & D & E & K & P).
    { intros r I. apply F. now right. }
    { now apply assign_distinct. }
    exists fs. split; [exact R |]. split; [exact D |]. split; [| split].
    + intros k v I. destruct (E k v I) as [A | (r & e & I' & -> & L')].
      * apply assign_entries in A as [A | A]; [| now left].
        inv A. right. exists rel, entry. auto.
      * right. exists r, e. auto.
    + intros k [H | [[<- | H] Q]]; apply K.
      * left. apply assign_keys. now right.
      * left. apply assign_keys. now left.
      * now right.
    + intros I. apply P in I. apply assign_keys in I as [[X Q] | I]; [| exact I].
      exfalso. apply Q. now symmetry.
Qed.

Lemma loadCodeFiles_reads (root : node) (problemPath : path) (f : folder) :
  well_formed root = true ->
  (forall entry content,
     lookup (join problemPath (folder_name f)) root <> Some (File entry content)) ->
  exists fs,
    loadCodeFiles root problemPath f = inr fs
    /\ NoDup (map fst fs)
    /\ (forall k v, In (k, v) fs ->
          exists rel entry,
            k = path_string rel
            /\ lookup (join problemPath (folder_name f) ++ rel)%list root
               = Some (File entry v))
    /\ (forall rel, is_file root (join problemPath (folder_name f) ++ rel)%list ->
                    path_string rel <> "__proto__" ->
                    In (path_string rel) (map fst fs))
    /\ ~ In "__proto__" (map fst fs)
    /\ (existsSync root (join problemPath (folder_name f)) = false -> fs = []).
Proof.
  intros W NF. unfold loadCodeFiles.
  destruct (existsSync root (join problemPath (folder_name f))) eqn:X; simpl.
  - destruct (listFilesRecursive root (join problemPath (folder_name f)))
      as [e | listed] eqn:L.
    + exfalso. unfold listFilesRecursive in L.
      destruct (lookup (join problemPath (folder_name f)) root) as [[e0 c0 | e0 es] |] eqn:Q;
        try discriminate. now apply (NF e0 c0).
    + pose proof (listFilesRecursive_files_only root _ listed W L) as S.
      destruct (read_all_reads root (join problemPath (folder_name f)) listed [])
        as (fs & R & D & E & K & P).
      { intros rel I. now apply S. }
      { constructor. }
      exists fs. split; [exact R |]. split; [exact D |]. split; [| split; [| split]].
      * intros k v I. destruct (E k v I) as [[] | (rel & entry & _ & -> & Q)].
        now exists rel, entry.
      * intros rel I Q. apply K. right. split; [| exact Q]. apply in_map. now apply S.
      * exact P.
      * discriminate.
  - exists []. split; [reflexivity |]. split; [constructor |]. split; [| split; [| split]].
    + intros k v [].
    + intros rel (e0 & c0 & Q). exfalso. unfold existsSync in X.
      rewrite lookup_app in Q.
      destruct (lookup (join problemPath (folder_name f)) root); discriminate.
    + intros [].
    + reflexivity.
Qed.

(** In a tree whose directories hold no two entries of one name,
    [loadCodeFiles] cannot fail unless the folder path names a file.  It
    returns the empty record for a missing folder; otherwise a record with no
    key twice, with a key for every file below the folder whose relative path
    is not ["__proto__"], with no key ["__proto__"], and with every value the
    content of a file below the folder whose relative path is the key. *)
Theorem loadCodeFiles_reads_the_folder (root : node) (problemPath : path) (f : folder) :
  well_formed root = true ->
  (forall entry content,
     lookup (join problemPath (folder_name f)) root <> Some (File entry content)) ->
  exists fs,
    loadCodeFiles root problemPath f = inr fs
    /\ NoDup (map fst fs)
    /\ (forall k v, In (k, v) fs ->
          exists rel entry,
            k = path_string rel
            /\ lookup (join problemPath (folder_name f) ++ rel)%list root
               = Some (File entry v))
    /\ (forall rel, is_file root (join problemPath (folder_name f) ++ rel)%list ->
                    path_string rel <> "__proto__" ->
                    In (path_string rel) (map fst fs))
    /\ ~ In "__proto__" (map fst fs)
    /\ (existsSync root (join problemPath (folder_name f)) = false -> fs = []).
Proof.
  apply loadCodeFiles_reads.
Qed.

Lemma loadCodeFiles_reads_the_folder_witness :
  loadCodeFiles proto_tree ["p"] src = inr [("App.tsx", "function App() {}")]
  /\ exists fs,
       loadCodeFiles proto_tree ["p"] src = inr fs
       /\ NoDup (map fst fs).
Proof.
  split; [reflexivity |].
  destruct (loadCodeFiles_reads_the_folder proto_tree ["p"] src eq_refl)
    as (fs & L & D & _).
  - intros entry content. discriminate.
  - exists fs. split; [exact L | exact D].
Defined.

(* ================================================================== *)
(** * Further properties: file structure, bundling, validation          *)
(* ================================================================== *)

Lemma insert_sorted_permutation (x : string) (l : list string) :
  Permutation (insert_sorted x l) (x :: l).
Proof.
  induction l as [| y rest IH]; simpl; [apply Permutation_refl |].
  destruct (String.leb x y); [apply Permutation_refl |].
  eapply Permutation_trans; [apply perm_skip, IH | apply perm_swap].
Qed.

Lemma sort_strings_permutation (l : list string) : Permutation (sort_strings l) l.
Proof.
  induction l as [| x rest IH]; simpl; [constructor |].
  eapply Permutation_trans; [apply insert_sorted_permutation | now apply perm_skip].
Qed.

Lemma guarded_lines_nil (p : string -> bool) (line : string -> string)
    (l : list string) :
  flat_map (fun file => if negb (p file) then [line file] else []) l = []
  <-> forall file, In file l -> p file = true.
Proof.
  induction l as [| x rest IH]; simpl; [split; [intros _ ? [] | reflexivity] |].
  destruct (p x) eqn:E; simpl.
  - rewrite IH. split.
    + intros H file [<- | I]; auto.
    + intros H file I. apply H. now right.
  - split; [discriminate |]. intros H. specialize (H x (or_introl eq_refl)). congruence.
Qed.

(** Whatever order [sort] puts the file names in,
    [validateFileStructureMatch], when it returns, answers [valid: true]
    exactly when both folders exist and list equally many files carrying the
    same names, and exactly when it reports no error. *)
Theorem validateFileStructureMatch_valid (root : node)
    (sort : list string -> list string) (problemPath : path) (r : StructureMatch) :
  (forall l, Permutation (sort l) l) ->
  validateFileStructureMatch root sort problemPath = inr r ->
  (structure_valid r = true <-> structure_errors r = [])
  /\ (structure_valid r = true
      <-> existsSync root (join problemPath "src") = true
          /\ existsSync root (join problemPath "solution") = true
          /\ exists listedSrc listedSolution,
               listFilesRecursive root (join problemPath "src") = inr listedSrc
               /\ listFilesRecursive root (join problemPath "solution")
                  = inr listedSolution
               /\ length listedSrc = length listedSolution
               /\ (forall file,
                     In file (map path_string listedSrc)
                     <-> In file (map path_string listedSolution))).
Proof.
  intros P H. unfold validateFileStructureMatch in H.
  destruct (existsSync root (join problemPath "src")) eqn:X1; cbn [negb] in H.
  2: { inv H. simpl. split; split; try discriminate. intros (A & _). discriminate A. }
  destruct (existsSync root (join problemPath "solution")) eqn:X2; cbn [negb] in H.
  2: { inv H. simpl. split; split; try discriminate. intros (_ & A & _). discriminate A. }
  destruct (listFilesRecursive root (join problemPath "src")) as [e | ls];
    [discriminate |].
  destruct (listFilesRecursive root (join problemPath "solution")) as [e | lso];
    [discriminate |].
  inv H. cbn [structure_valid structure_errors].
  set (srcFiles := sort (map path_string ls)).
  set (solutionFiles := sort (map path_string lso)).
  assert (Ls : length srcFiles = length ls).
  { unfold srcFiles. rewrite (Permutation_length (P _)). apply length_map. }
  assert (Lo : length solutionFiles = length lso).
  { unfold solutionFiles. rewrite (Permutation_length (P _)). apply length_map. }
  assert (Is : forall file, In file srcFiles <-> In file (map path_string ls)).
  { intros file. unfold srcFiles. split; apply Permutation_in;
      [apply P | apply Permutation_sym, P]. }
  assert (Io : forall file, In file solutionFiles <-> In file (map path_string lso)).
  { intros file. unfold solutionFiles. split; apply Permutation_in;
      [apply P | apply Permutation_sym, P]. }
  match goal with
  | |- (Nat.eqb (length ?l) 0 = true <-> _) /\ _ =>
      assert (N : Nat.eqb (length l) 0 = true <-> l = []) by
        (destruct l; simpl; split; intros; congruence)
  end.
  split; [exact N |]. rewrite N. clear N.
  split.
  - intros E. apply app_eq_nil in E as [E1 E23]. apply app_eq_nil in E23 as [E2 E3].
    split; [reflexivity |]. split; [reflexivity |].
    exists ls, lso. split; [reflexivity |]. split; [reflexivity |].
    rewrite guarded_lines_nil in E2, E3. split.
    + destruct (Nat.eqb (length srcFiles) (length solutionFiles)) eqn:Q;
        [| discriminate E1]. apply Nat.eqb_eq in Q. lia.
    + intros file. rewrite <- Is, <- Io. split; intros I.
      * apply includes_In. now apply E2.
      * apply includes_In. now apply E3.
  - intros (_ & _ & ls' & lso' & A & B & L & S).
    assert (A' : ls' = ls) by congruence. assert (B' : lso' = lso) by congruence.
    subst ls' lso'. clear A B.
    assert (Q : Nat.eqb (length srcFiles) (length solutionFiles) = true)
      by (apply Nat.eqb_eq; lia).
    rewrite Q. cbn [negb].
    assert (E2 : flat_map
                   (fun file => if negb (includes solutionFiles file)
                                then [("Missing file in solution/: " ++ file)%string]
                                else []) srcFiles = []).
    { apply guarded_lines_nil. intros file I. apply includes_In.
      apply Io, S, Is, I. }
    assert (E3 : flat_map
                   (fun file => if negb (includes srcFiles file)
                                then [("Extra file in solution/: " ++ file)%string]
                                else []) solutionFiles = []).
    { apply guarded_lines_nil. intros file I. apply includes_In.
      apply Is, S, Io, I. }
    exact (eq_trans (f_equal2 (@List.app string) E2 E3) eq_refl).
Qed.

Lemma validateFileStructureMatch_valid_witness :
  validateFileStructureMatch counter_tree sort_strings ["counter"]
  = inr {| structure_valid := true; structure_errors := [] |}
  /\ (true = true <-> @nil string = []).
Proof.
  split; [reflexivity |].
  exact (proj1 (validateFileStructureMatch_valid counter_tree sort_strings ["counter"]
                  {| structure_valid := true; structure_errors := [] |}
                  sort_strings_permutation eq_refl)).
Defined.

Lemma append_assoc (a b c : string) : ((a ++ b) ++ c = a ++ (b ++ c))%string.
Proof.
  induction a as [| ch a IH]; simpl; [reflexivity | now rewrite IH].
Qed.

Lemma concat_app (sep : string) (l1 l2 : list string) :
  l1 <> [] -> l2 <> [] ->
  String.concat sep (l1 ++ l2)
  = (String.concat sep l1 ++ sep ++ String.concat sep l2)%string.
Proof.
  intros N1 N2. induction l1 as [| x rest IH]; [contradiction |].
  destruct rest as [| y rest].
  - simpl. destruct l2; [contradiction | reflexivity].
  - change (String.concat sep ((x :: y :: rest) ++ l2))
      with (x ++ sep ++ String.concat sep ((y :: rest) ++ l2))%string.
    rewrite IH by discriminate.
    change (String.concat sep (x :: y :: rest))
      with (x ++ sep ++ String.concat sep (y :: rest))%string.
    now rewrite !append_assoc.
Qed.




(** The bundle always ends with the line that registers [App] followed by
    the test file, verbatim: whatever the code files are, they only
    contribute a prefix, which is empty when there is none. *)
Theorem bundleCodeWithTests_ends_with_tests (codeFiles : files) :
  exists prefix,
    (codeFiles = [] -> prefix = "")
    /\ forall testCode,
         bundleCodeWithTests codeFiles testCode
         = prefix ++ String.concat (String "010" EmptyString)
                       ["// Auto-register App"; "registerApp(App);"; "";
                        "// Test file"; testCode].
Proof.
  unfold bundleCodeWithTests.
  destruct (Object_entries codeFiles) as [| kv rest] eqn:O.
  - exists "". split; [reflexivity |]. intros testCode. reflexivity.
  - exists (String.concat (String "010" EmptyString)
              (flat_map (fun kv : string * string =>
                           [("// File: " ++ fst kv)%string; snd kv; ""])
                 (kv :: rest))
            ++ String "010" EmptyString).
    split; [intros ->; discriminate O |]. intros testCode.
    change (["// Auto-register App"; "registerApp(App);"; ""] ++ ["// Test file"; testCode])%list
      with ["// Auto-register App"; "registerApp(App);"; ""; "// Test file"; testCode].
    rewrite concat_app; [| simpl; discriminate | discriminate].
    now rewrite append_assoc.
Qed.

(** Once the code files are loaded, [runTestsWithCode] runs nothing when
    there is no [test.ts] and returns the failing entry "Load test file";
    with a [test.ts] it hands on the report of [runTestsInVM] unchanged, and
    when [runTestsInVM] rejects with an error it returns, instead of
    rejecting, a report with the single failing entry "Run tests in VM" that
    carries the error's message: outside Node.js that of the environment
    check. *)
Theorem runTestsWithCode_reports_rejection (root : node) (env : Env)
    (compile : string -> source) (problemPath : path) (f : folder) (w : World)
    (codeFiles : files) :
  loadCodeFiles root problemPath f = inr codeFiles ->
  (existsSync root (join problemPath "test.ts") = false ->
   runTestsWithCode root env compile problemPath f w
   = Returns
       {| passed := false;
          results := [{| case := "Load test file"; case_passed := false;
                         error := Some "test.ts not found" |}] |} w)
  /\ (forall testCode,
        readFileSync root (join problemPath "test.ts") = inr testCode ->
        (forall r w1,
           runTestsInVM env (compile (bundleCodeWithTests codeFiles testCode)) w
           = Returns r w1 ->
           runTestsWithCode root env compile problemPath f w = Returns r w1)
        /\ (forall m w1,
              runTestsInVM env (compile (bundleCodeWithTests codeFiles testCode)) w
              = Rejects (ErrorOf m) w1 ->
              runTestsWithCode root env compile problemPath f w
              = Returns
                  {| passed := false;
                     results := [{| case := "Run tests in VM"; case_passed := false;
                                    error := Some m |}] |} w1)
        /\ (is_node env = false ->
            runTestsWithCode root env compile problemPath f w
            = Returns
                {| passed := false;
                   results :=
                     [{| case := "Run tests in VM"; case_passed := false;
                         error := Some "runTestsInVM can only be used in Node.js environment"
                      |}] |} w)).
Proof.
  intros L. unfold runTestsWithCode. rewrite L. split.
  - intros X. now rewrite X.
  - intros testCode T.
    assert (X : existsSync root (join problemPath "test.ts") = true).
    { unfold existsSync, readFileSync in *.
      destruct (lookup (join problemPath "test.ts") root); [reflexivity | discriminate]. }
    rewrite X, T. cbn [negb].
    split; [intros r w1 V; now rewrite V |].
    split; [intros m w1 V; now rewrite V |].
    intros N. unfold runTestsInVM, is_node in *.
    destruct (has_process env), (has_require env); simpl in *; try discriminate;
      reflexivity.
Qed.

Lemma runTestsWithCode_reports_rejection_witness :
  runTestsWithCode counter_tree node_env
    (fun _ => Script (It "counts" (Throw (Thrown VNull)))) ["counter"] src pristine
  = Returns
      {| passed := false;
         results := [{| case := "Run tests in VM"; case_passed := false;
                        error := Some "Cannot read properties of null (reading 'message')"
                     |}] |} pristine.
Proof.
  destruct (runTestsWithCode_reports_rejection counter_tree node_env
              (fun _ => Script (It "counts" (Throw (Thrown VNull)))) ["counter"] src
              pristine _ eq_refl) as (_ & H).
  destruct (H _ eq_refl) as (_ & R & _).
  exact (R _ _ eq_refl).
Defined.

(** When [validateProblemTests] returns for a problem with a [solution/]
    folder, it has run the tests on the solution and then, in the world that
    run left, on [src/]; its result carries both reports, and is [valid]
    exactly when the solution's report passed and that of [src/] did not. *)
Theorem validateProblemTests_verdict (root : node) (env : Env)
    (compile : string -> source) (problemPath : path) (w : World)
    (v : Validation) (w' : World) :
  validateProblemTests root env compile problemPath w = Returns v w' ->
  existsSync root (join problemPath "solution") = true ->
  exists solutionResult0 srcResult0 w1,
    runTestsWithCode root env compile problemPath solution w
    = Returns solutionResult0 w1
    /\ runTestsWithCode root env compile problemPath src w1 = Returns srcResult0 w'
    /\ solutionResult v = Some solutionResult0
    /\ srcResult v = Some srcResult0
    /\ valid v = passed solutionResult0 && negb (passed srcResult0).
Proof.
  unfold validateProblemTests. intros H X. rewrite X in H. cbn [negb] in H.
  destruct (runTestsWithCode root env compile problemPath solution w)
    as [r1 w1 | e1 w1 |] eqn:R1; try discriminate.
  destruct (runTestsWithCode root env compile problemPath src w1)
    as [r2 w2 | e2 w2 |] eqn:R2; try discriminate.
  inv H. exists r1, r2, w1. cbn [valid solutionResult srcResult].
  split; [reflexivity |]. split; [exact R2 |].
  split; [reflexivity |]. split; [reflexivity |].
  destruct (passed r1), (passed r2); reflexivity.
Qed.

Lemma validateProblemTests_verdict_witness :
  exists v w',
    validateProblemTests counter_tree node_env counter_compile ["counter"] pristine
    = Returns v w'
    /\ valid v = true
    /\ registeredApp (app w') = Some 2.
Proof.
  eexists. eexists. split; [reflexivity |]. split; [| reflexivity].
  destruct (validateProblemTests_verdict counter_tree node_env counter_compile
              ["counter"] pristine _ _ eq_refl eq_refl)
    as (r1 & r2 & w1 & _ & _ & _ & _ & V).
  reflexivity.
Defined.
